(** * Waiting queue and document-store accessors of the restaurant backend

    A shallow embedding of [backend/routes/queue.py] and [backend/mongo.py].

    The relational table behind [QueueEntry] is a list of rows in insertion
    order whose primary keys ([id]) are pairwise distinct; the SQLAlchemy
    session is collapsed into that table, since every handler commits before
    it answers.  [ORDER BY] is a stable insertion sort over the table order:
    SQL leaves the order of rows with equal keys open, the model fixes it to
    the table order.  Strings compare bytewise.

    Python's [str] and [int] on an arbitrary JSON value and [float] on an
    [int] are taken from a [PyBuiltins] instance: [str] is total, [int] may
    raise, and [float] of an [int] out of a payload raises [OverflowError]
    where the instance says so (beyond the binary64 range).  [float] of a
    position, which is a row count plus one, is taken as it comes.  Floats
    are IEEE binary64 values ([spec_float]). *)

From Stdlib Require Import ZArith List String Ascii Bool Lia.
From Stdlib Require Import Permutation Sorted DecimalString SpecFloat.
Import ListNotations.

Local Open Scope Z_scope.
Local Open Scope list_scope.

(* ===================================================================== *)
(** ** Python and JSON values *)
(* ===================================================================== *)

Definition pyfloat := spec_float.

(** A value as [json.loads] produces it: [None], [bool], [int], [float],
    [str], [list], [dict]. *)
#[warnings="-register-all"]
Inductive json : Type :=
| JNull
| JBool (b : bool)
| JInt (z : Z)
| JFloat (f : pyfloat)
| JStr (s : string)
| JArr (l : list json)
| JObj (o : list (string * json)).

(** The request payload is a JSON object; lookup takes the first binding. *)
Definition dict := list (string * json).

Fixpoint dict_get (k : string) (d : dict) : option json :=
  match d with
  | [] => None
  | (k', v) :: d' => if String.eqb k k' then Some v else dict_get k d'
  end.

(** [k in data] *)
Definition dict_has (k : string) (d : dict) : bool :=
  match dict_get k d with Some _ => true | None => false end.

(** [data.get(k, default)] *)
Definition dict_get_default (k : string) (default : json) (d : dict) : json :=
  match dict_get k d with Some v => v | None => default end.

(** [bool(x)]: Python truthiness of a JSON value. *)
Definition py_bool (v : json) : bool :=
  match v with
  | JNull => false
  | JBool b => b
  | JInt z => negb (z =? 0)
  | JFloat (S754_zero _) => false
  | JFloat _ => true
  | JStr s => negb (String.eqb s EmptyString)
  | JArr l => match l with [] => false | _ => true end
  | JObj o => match o with [] => false | _ => true end
  end.

(** [isinstance(x, bool)] *)
Definition isinstance_bool (v : option json) : bool :=
  match v with Some (JBool _) => true | _ => false end.

(** [isinstance(x, (int, float))]: [bool] is a subclass of [int]. *)
Definition isinstance_int_float (v : option json) : bool :=
  match v with
  | Some (JBool _) | Some (JInt _) | Some (JFloat _) => true
  | _ => false
  end.

(** The builtins whose full definition lives in the interpreter. *)
Class PyBuiltins : Type := {
  py_str : json -> string;        (* str(x) *)
  py_int : json -> option Z;      (* int(x), None when it raises *)
  float_of_int : Z -> pyfloat;    (* float(n) for an int n, when it returns *)
  float_raises : Z -> bool        (* float(n) raises OverflowError *)
}.

(** Exceptions that escape a handler. *)
Inductive exn : Type :=
| KeyError (k : string)
| ValueError
| OverflowError
| TypeError.

Definition py (A : Type) : Type := (exn + A)%type.

Definition py_ret {A} (a : A) : py A := inr a.
Definition py_raise {A} (e : exn) : py A := inl e.
Definition py_bind {A B} (c : py A) (k : A -> py B) : py B :=
  match c with inl e => inl e | inr a => k a end.

Declare Scope py_scope.
Delimit Scope py_scope with py.
Notation "x <- c ;; k" := (py_bind c (fun x => k))
  (at level 61, c at next level, right associativity) : py_scope.

(** [data[k]] *)
Definition subscript (d : dict) (k : string) : py json :=
  match dict_get k d with Some v => py_ret v | None => py_raise (KeyError k) end.

(** [int(x)] *)
Definition int_ `{PyBuiltins} (v : json) : py Z :=
  match py_int v with Some z => py_ret z | None => py_raise ValueError end.

(** [float(n)] for an int [n] out of a payload: an int too large for a
    float raises. *)
Definition float_ `{PyBuiltins} (z : Z) : py pyfloat :=
  if float_raises z then py_raise OverflowError else py_ret (float_of_int z).

(** [float(x)] for an [x] that passed [isinstance(x, (int, float))]: a
    float is returned as it is, an int (a bool is one) is converted. *)
Definition py_float `{PyBuiltins} (v : json) : py pyfloat :=
  match v with
  | JFloat f => py_ret f
  | JInt z => float_ z
  | JBool b => float_ (if b then 1 else 0)
  | _ => py_raise TypeError
  end.

(* ===================================================================== *)
(** ** Comparators and ORDER BY *)
(* ===================================================================== *)

Section Comparators.
Context {A : Type}.

Definition cmp_on {K : Type} (c : K -> K -> comparison) (key : A -> K)
  : A -> A -> comparison :=
  fun a b => c (key a) (key b).

(** descending: the comparison is turned around *)
Definition desc (c : A -> A -> comparison) : A -> A -> comparison :=
  fun a b => CompOpp (c a b).

(** lexicographic: [c2] decides where [c1] says equal *)
Definition then_by (c1 c2 : A -> A -> comparison) : A -> A -> comparison :=
  fun a b => match c1 a b with Eq => c2 a b | r => r end.

Definition cmp_le (c : A -> A -> comparison) (a b : A) : Prop := c a b <> Gt.

Fixpoint insert_by (c : A -> A -> comparison) (x : A) (l : list A) : list A :=
  match l with
  | [] => [x]
  | y :: l' =>
      match c x y with
      | Gt => y :: insert_by c x l'
      | _ => x :: l
      end
  end.

(** [query.order_by(...).all()] over rows in table order. *)
Fixpoint order_by (c : A -> A -> comparison) (l : list A) : list A :=
  match l with
  | [] => []
  | x :: l' => insert_by c x (order_by c l')
  end.
End Comparators.

(** A comparison that behaves as a total preorder with its equivalence. *)
Class Comparator {A : Type} (c : A -> A -> comparison) : Prop := {
  cmp_antisym : forall a b, c b a = CompOpp (c a b);
  cmp_trans_lt : forall a b d, c a b = Lt -> c b d = Lt -> c a d = Lt;
  cmp_eq_compat : forall a b d, c a b = Eq -> c a d = c b d
}.

(* ===================================================================== *)
(** ** datetime *)
(* ===================================================================== *)

(** A naive [datetime]; comparison is that of the field tuple. *)
Record datetime : Type := mkDatetime {
  year : nat; month : nat; day : nat;
  hour : nat; minute : nat; second : nat; microsecond : nat
}.

Definition datetime_compare : datetime -> datetime -> comparison :=
  then_by (cmp_on Nat.compare year)
  (then_by (cmp_on Nat.compare month)
  (then_by (cmp_on Nat.compare day)
  (then_by (cmp_on Nat.compare hour)
  (then_by (cmp_on Nat.compare minute)
  (then_by (cmp_on Nat.compare second)
           (cmp_on Nat.compare microsecond)))))).

Fixpoint zeros (n : nat) : string :=
  match n with O => EmptyString | S n' => String "0"%char (zeros n') end.

(** ["%0<width>d" % n] *)
Definition zero_pad (width : nat) (n : nat) : string :=
  let s := NilZero.string_of_uint (Nat.to_uint n) in
  String.append (zeros (width - String.length s)) s.

(** [datetime.isoformat()] *)
Definition isoformat (t : datetime) : string :=
  let date := String.append (zero_pad 4 (year t))
             (String.append "-" (String.append (zero_pad 2 (month t))
             (String.append "-" (zero_pad 2 (day t))))) in
  let time := String.append (zero_pad 2 (hour t))
             (String.append ":" (String.append (zero_pad 2 (minute t))
             (String.append ":" (zero_pad 2 (second t))))) in
  let frac := match microsecond t with
              | O => EmptyString
              | us => String.append "." (zero_pad 6 us)
              end in
  String.append date (String.append "T" (String.append time frac)).

(* ===================================================================== *)
(** ** The queue table *)
(* ===================================================================== *)

(** Modelled from the spec: the ORM class [QueueEntry] of [models.py] (not
    among the sources), with the columns that [queue.py] reads and writes
    and [id] as primary key. *)
Record QueueEntry : Type := mkQueueEntry {
  id : string;
  name : string;
  guests : Z;
  notification_method : string;
  contact : string;
  hall : string;
  segment : string;
  position : Z;
  estimated_wait_minutes : pyfloat;
  joined_at : datetime;
  queue_date : string;
  notified_at_5_min : bool
}.

Definition set_position (p : Z) (w : pyfloat) (e : QueueEntry) : QueueEntry :=
  mkQueueEntry (id e) (name e) (guests e) (notification_method e) (contact e)
    (hall e) (segment e) p w (joined_at e) (queue_date e)
    (notified_at_5_min e).

Definition set_notified_at_5_min (b : bool) (e : QueueEntry) : QueueEntry :=
  mkQueueEntry (id e) (name e) (guests e) (notification_method e) (contact e)
    (hall e) (segment e) (position e) (estimated_wait_minutes e)
    (joined_at e) (queue_date e) b.

Definition set_estimated_wait_minutes (w : pyfloat) (e : QueueEntry)
  : QueueEntry :=
  mkQueueEntry (id e) (name e) (guests e) (notification_method e) (contact e)
    (hall e) (segment e) (position e) w (joined_at e) (queue_date e)
    (notified_at_5_min e).

(** The table: rows in insertion order. *)
Definition store := list QueueEntry.

(** The primary-key constraint. *)
Definition unique_ids (st : store) : Prop := NoDup (map id st).

(** [QueueEntry.query.get(entry_id)] *)
Definition query_get (entry_id : string) (st : store) : option QueueEntry :=
  find (fun e => String.eqb (id e) entry_id) st.

(** The four-column filter shared by [_next_position] and [_resequence]. *)
Definition in_group (queue_date_ : string) (guests_ : Z) (hall_ segment_ : string)
  (e : QueueEntry) : bool :=
  String.eqb (queue_date e) queue_date_ && (guests e =? guests_)
  && String.eqb (hall e) hall_ && String.eqb (segment e) segment_.

(** [db.session.merge(entry); db.session.commit()]: the row with the same
    primary key is overwritten where it stands, otherwise a row is added. *)
Definition merge (entry : QueueEntry) (st : store) : store :=
  match query_get (id entry) st with
  | Some _ => map (fun e => if String.eqb (id e) (id entry) then entry else e) st
  | None => st ++ [entry]
  end.

(** [db.session.delete(entry); db.session.commit()] *)
Definition delete (entry : QueueEntry) (st : store) : store :=
  filter (fun e => negb (String.eqb (id e) (id entry))) st.

(** Assignment to attributes of a loaded row: the session holds one object
    per primary key, so the write lands on the row with that key. *)
Definition update_row (entry_id : string) (f : QueueEntry -> QueueEntry)
  (st : store) : store :=
  map (fun e => if String.eqb (id e) entry_id then f e else e) st.

(* ===================================================================== *)
(** ** Responses *)
(* ===================================================================== *)

(** Modelled from the spec: [utils.json_response(body, status)] (not among
    the sources) pairs a JSON body with an HTTP status, 200 when none is
    given; [utils.get_json(request)] hands the handler the payload object. *)
Record response : Type := mkResponse { body : json; status : Z }.

Definition json_response (b : json) (s : Z) : response := mkResponse b s.

Definition error_body (code : string) : json := JObj [("error"%string, JStr code)].

Section Queue.
Context `{PyBuiltins}.

Definition serialize_entry (e : QueueEntry) : json :=
  JObj [ ("id", JStr (id e));
         ("name", JStr (name e));
         ("guests", JInt (guests e));
         ("notificationMethod", JStr (notification_method e));
         ("contact", JStr (contact e));
         ("hall", JStr (hall e));
         ("segment", JStr (segment e));
         ("position", JInt (position e));
         ("estimatedWaitMinutes", JFloat (estimated_wait_minutes e));
         ("joinedAt", JStr (isoformat (joined_at e)));
         ("queueDate", JStr (queue_date e));
         ("notifiedAt5Min", JBool (notified_at_5_min e)) ]%string.

(** The ordering of [list_queue]. *)
Definition list_order : QueueEntry -> QueueEntry -> comparison :=
  then_by (desc (cmp_on String.compare queue_date))
  (then_by (cmp_on String.compare hall)
  (then_by (cmp_on String.compare segment)
           (cmp_on Z.compare position))).

(** [request.args.get("queueDate")] is [None] or a string; [if date:]
    lets the empty string through as no filter. *)
Definition list_queue (date : option string) (st : store) : response :=
  let q := match date with
           | Some d =>
               if String.eqb d EmptyString then st
               else filter (fun e => String.eqb (queue_date e) d) st
           | None => st
           end in
  let rows := order_by list_order q in
  json_response (JObj [("entries"%string, JArr (map serialize_entry rows))]) 200.

Definition _next_position (queue_date_ : string) (guests_ : Z)
  (hall_ segment_ : string) (st : store) : Z :=
  let count := List.length (filter (in_group queue_date_ guests_ hall_ segment_) st) in
  Z.of_nat count + 1.

(** [for idx, row in enumerate(rows, start=idx): ...] *)
Fixpoint resequence_rows (idx : Z) (rows : list QueueEntry) (st : store)
  : store :=
  match rows with
  | [] => st
  | row :: rows' =>
      resequence_rows (idx + 1) rows'
        (update_row (id row) (set_position idx (float_of_int (idx * 60))) st)
  end.

Definition _resequence (queue_date_ : string) (guests_ : Z)
  (hall_ segment_ : string) (st : store) : store :=
  let rows := order_by (cmp_on datetime_compare joined_at)
                (filter (in_group queue_date_ guests_ hall_ segment_) st) in
  resequence_rows 1 rows st.

Definition required : list string :=
  ["id"; "name"; "guests"; "notificationMethod"; "contact"; "hall";
   "segment"; "queueDate"]%string.

(** [for k in required: if k not in data: return ...]: the first key that
    is missing, if any. *)
Fixpoint first_missing (ks : list string) (data : dict) : option string :=
  match ks with
  | [] => None
  | k :: ks' => if dict_has k data then first_missing ks' data else Some k
  end.

(** A handler takes the table and gives the table after its commits with
    the response, or lets an exception escape, in which case nothing was
    committed. [now] is what [datetime.utcnow()] returns. *)
Definition join_queue (data : dict) (now : datetime) (st : store)
  : py (store * response) :=
  match first_missing required data with
  | Some k =>
      py_ret (st, json_response (error_body (String.append k "_required")) 400)
  | None =>
      (g <- subscript data "guests" ;;
       guests_ <- int_ g ;;
       h <- subscript data "hall" ;;
       let hall_ := py_str h in
       s <- subscript data "segment" ;;
       let segment_ := py_str s in
       d <- subscript data "queueDate" ;;
       let queue_date_ := py_str d in
       let position_ := _next_position queue_date_ guests_ hall_ segment_ st in
       let estimated_wait_minutes_ := float_of_int (position_ * 60) in
       i <- subscript data "id" ;;
       n <- subscript data "name" ;;
       m <- subscript data "notificationMethod" ;;
       c <- subscript data "contact" ;;
       let entry :=
         mkQueueEntry (py_str i) (py_str n) guests_ (py_str m) (py_str c)
           hall_ segment_ position_ estimated_wait_minutes_ now queue_date_
           (py_bool (dict_get_default "notifiedAt5Min" (JBool false) data)) in
       py_ret (merge entry st, json_response (serialize_entry entry) 201))%py
  end%string.

Definition cancel_queue (entry_id : string) (st : store)
  : py (store * response) :=
  match query_get entry_id st with
  | None => py_ret (st, json_response (error_body "not_found") 404)
  | Some entry =>
      let date := queue_date entry in
      let guests_ := guests entry in
      let hall_ := hall entry in
      let segment_ := segment entry in
      let st1 := delete entry st in
      let st2 := _resequence date guests_ hall_ segment_ st1 in
      py_ret (st2, json_response (JObj [("ok", JBool true)]) 200)
  end%string.

Definition update_queue_entry (entry_id : string) (data : dict) (st : store)
  : py (store * response) :=
  match query_get entry_id st with
  | None => py_ret (st, json_response (error_body "not_found") 404)
  | Some entry =>
      let entry1 :=
        match dict_get "notifiedAt5Min" data with
        | Some (JBool b) => set_notified_at_5_min b entry
        | _ => entry
        end in
      (entry2 <-
         (if isinstance_int_float (dict_get "estimatedWaitMinutes" data)
          then
            (w <- py_float
                    (dict_get_default "estimatedWaitMinutes" JNull data) ;;
             py_ret (set_estimated_wait_minutes w entry1))
          else py_ret entry1) ;;
       py_ret (update_row entry_id (fun _ => entry2) st,
               json_response (serialize_entry entry2) 200))%py
  end%string.
End Queue.

(* ===================================================================== *)
(** ** Requests against the queue *)
(* ===================================================================== *)

Inductive request : Type :=
| Join (data : dict) (now : datetime)        (* POST /queue/join *)
| Cancel (entry_id : string)                 (* DELETE /queue/<entry_id> *)
| Patch (entry_id : string) (data : dict).   (* PATCH /queue/<entry_id> *)

Section Dispatch.
Context `{PyBuiltins}.

Definition handle (r : request) (st : store) : py (store * response) :=
  match r with
  | Join data now => join_queue data now st
  | Cancel entry_id => cancel_queue entry_id st
  | Patch entry_id data => update_queue_entry entry_id data st
  end.

(** The table after a request; an escaped exception commits nothing. *)
Definition step (r : request) (st : store) : store :=
  match handle r st with
  | inr (st', _) => st'
  | inl _ => st
  end.

Definition run (rs : list request) (st : store) : store :=
  fold_left (fun st r => step r st) rs st.

(** The responses of a sequence of joins, in order. *)
Fixpoint run_joins (reqs : list (dict * datetime)) (st : store)
  : store * list (py response) :=
  match reqs with
  | [] => (st, [])
  | (data, now) :: reqs' =>
      match join_queue data now st with
      | inr (st', r) =>
          let '(st'', rs) := run_joins reqs' st' in (st'', inr r :: rs)
      | inl e =>
          let '(st'', rs) := run_joins reqs' st in (st'', inl e :: rs)
      end
  end.
End Dispatch.

(* ===================================================================== *)
(** ** Document-store accessors ([mongo.py]) *)
(* ===================================================================== *)

Module Mongo.

(** What the driver was asked to do, in order. *)
Inductive call : Type :=
| CreateIndex (collection : string) (key : string) (unique : bool).

Section Driver.
(** The server and connection state, a client and a database handle are
    pymongo's; so is the outcome of each driver operation. *)
Variables (world client database : Type).

Record state : Type := mkState {
  _client : option client;      (* the module global *)
  calls : list call;
  the_world : world
}.

(** A computation may raise; what it did before raising stays done. *)
Definition mongo (A : Type) : Type := state -> (string + A) * state.

Definition ret {A} (a : A) : mongo A := fun s => (inr a, s).
Definition bind {A B} (c : mongo A) (k : A -> mongo B) : mongo B :=
  fun s => match c s with
           | (inl e, s') => (inl e, s')
           | (inr a, s') => k a s'
           end.

(** [try: body  except Exception: pass] *)
Definition try_pass (c : mongo unit) : mongo unit :=
  fun s => match c s with
           | (inl _, s') => (inr tt, s')
           | r => r
           end.

Record collection : Type := mkCollection {
  coll_db : database; coll_name : string
}.

Variable MONGO_URI : string.
Variable MONGO_DB_NAME : string.
Variable MongoClient : string -> world -> (string + client) * world.
Variable client_get_database :
  client -> option string -> world -> (string + database) * world.
Variable driver_create_index :
  collection -> string -> bool -> world -> (string + unit) * world.

Definition lift {A} (op : world -> (string + A) * world) : mongo A :=
  fun s => let '(r, w) := op (the_world s) in
           (r, mkState (_client s) (calls s) w).

Definition _get_client : mongo client :=
  fun s => match _client s with
           | Some c => (inr c, s)
           | None =>
               match lift (MongoClient MONGO_URI) s with
               | (inr c, s') =>
                   (inr c, mkState (Some c) (calls s') (the_world s'))
               | (inl e, s') => (inl e, s')
               end
           end.

Definition get_db : mongo database :=
  bind _get_client (fun c =>
    if String.eqb MONGO_DB_NAME EmptyString
    then lift (client_get_database c None)
    else lift (client_get_database c (Some MONGO_DB_NAME))).

(** [db.get_collection(name)] only builds a handle. *)
Definition get_collection (db : database) (n : string) : collection :=
  mkCollection db n.

(** [coll.create_index(key, unique=unique)]: the call is made, then the
    driver decides. *)
Definition create_index (c : collection) (key : string) (unique : bool)
  : mongo unit :=
  fun s =>
    lift (driver_create_index c key unique)
      (mkState (_client s)
         (calls s ++ [CreateIndex (coll_name c) key unique]) (the_world s)).

Local Notation "c1 ;; c2" := (bind c1 (fun _ => c2))
  (at level 61, right associativity).
Local Notation "x <- c1 ;; c2" := (bind c1 (fun x => c2))
  (at level 61, c1 at next level, right associativity).

Definition get_users_collection : mongo collection :=
  db <- get_db ;;
  let users := get_collection db "users" in
  try_pass (create_index users "email" true) ;;
  ret users.

Definition get_menu_collection : mongo collection :=
  db <- get_db ;;
  let menu := get_collection db "menu_items" in
  try_pass (create_index menu "id" true ;;
            create_index menu "category" false ;;
            create_index menu "isVeg" false) ;;
  ret menu.

Definition get_feedback_collection : mongo collection :=
  db <- get_db ;;
  let feedback := get_collection db "feedback" in
  try_pass (create_index feedback "id" true ;;
            create_index feedback "userId" false ;;
            create_index feedback "orderId" false ;;
            create_index feedback "createdAt" false) ;;
  ret feedback.

Definition get_orders_collection : mongo collection :=
  db <- get_db ;;
  let orders := get_collection db "orders" in
  try_pass (create_index orders "id" true ;;
            create_index orders "userId" false ;;
            create_index orders "date" false) ;;
  ret orders.

Definition get_reservations_collection : mongo collection :=
  db <- get_db ;;
  let reservations := get_collection db "reservations" in
  try_pass (create_index reservations "reservationId" true ;;
            create_index reservations "userId" false ;;
            create_index reservations "date" false ;;
            create_index reservations "timeSlot" false) ;;
  ret reservations.

Definition get_waiting_queue_collection : mongo collection :=
  db <- get_db ;;
  let waiting := get_collection db "reservation_waiting_queue" in
  try_pass (create_index waiting "queueId" true ;;
            create_index waiting "userId" false ;;
            create_index waiting "date" false ;;
            create_index waiting "timeSlot" false) ;;
  ret waiting.

(** The calls an accessor makes for its indexes, one after the other. *)
Fixpoint create_indexes (c : collection) (specs : list (string * bool))
  : mongo unit :=
  match specs with
  | [] => ret tt
  | [(k, u)] => create_index c k u
  | (k, u) :: rest => create_index c k u ;; create_indexes c rest
  end.

(** The shape all six accessors share. *)
Definition accessor (n : string) (specs : list (string * bool))
  : mongo collection :=
  db <- get_db ;;
  let c := get_collection db n in
  try_pass (create_indexes c specs) ;;
  ret c.

Definition index_call (n : string) (spec : string * bool) : call :=
  CreateIndex n (fst spec) (snd spec).

(** The six accessors with the collection each opens and the indexes it
    asks for, in order. *)
Definition accessors
  : list (mongo collection * string * list (string * bool)) :=
  [ (get_users_collection, "users", [("email", true)]);
    (get_menu_collection, "menu_items",
      [("id", true); ("category", false); ("isVeg", false)]);
    (get_feedback_collection, "feedback",
      [("id", true); ("userId", false); ("orderId", false);
       ("createdAt", false)]);
    (get_orders_collection, "orders",
      [("id", true); ("userId", false); ("date", false)]);
    (get_reservations_collection, "reservations",
      [("reservationId", true); ("userId", false); ("date", false);
       ("timeSlot", false)]);
    (get_waiting_queue_collection, "reservation_waiting_queue",
      [("queueId", true); ("userId", false); ("date", false);
       ("timeSlot", false)]) ]%string.
End Driver.

End Mongo.

(* ===================================================================== *)
(** ** An interpreter instance for concrete runs *)
(* ===================================================================== *)

(** [float(n)]: round to nearest even in binary64. *)
Definition binary64_of_int (z : Z) : pyfloat := binary_normalize 53 1024 z 0 false.

(** [int(x)] of a float: truncation towards zero; nan and the infinities
    raise. *)
Definition trunc_float (f : pyfloat) : option Z :=
  match f with
  | S754_zero _ => Some 0
  | S754_finite s m e =>
      let n := if 0 <=? e then Z.shiftl (Zpos m) e else Z.shiftr (Zpos m) (- e) in
      Some (if s then - n else n)
  | _ => None
  end.

(** [str] and [int] on the scalar values: exact on [None], [bool], [int]
    and [str] for [str], and on [bool], [int], [float] and plain decimal
    literals for [int].  The text of a float, a list or a dict is not
    computed here. *)
Definition scalar_str (v : json) : string :=
  match v with
  | JNull => "None"
  | JBool true => "True"
  | JBool false => "False"
  | JInt z => NilZero.string_of_int (Z.to_int z)
  | JStr s => s
  | _ => EmptyString
  end%string.

Definition scalar_int (v : json) : option Z :=
  match v with
  | JBool b => Some (if b then 1 else 0)
  | JInt z => Some z
  | JFloat f => trunc_float f
  | JStr s =>
      if String.eqb s EmptyString then None
      else option_map Z.of_int (NilZero.int_of_string s)
  | _ => None
  end.

(** [float(n)] raises when rounding [n] leaves the binary64 range. *)
Definition binary64_overflows (z : Z) : bool :=
  match binary64_of_int z with
  | S754_infinity _ => true
  | _ => false
  end.

#[export] Instance scalar_builtins : PyBuiltins := {|
  py_str := scalar_str;
  py_int := scalar_int;
  float_of_int := binary64_of_int;
  float_raises := binary64_overflows
|}.

(** Sample data for concrete runs. *)
Definition sample_time (us : nat) : datetime := mkDatetime 2024 5 17 19 30 0 us.

Definition sample_payload (entry_id : string) (party : Z) : dict :=
  [ ("id", JStr entry_id); ("name", JStr "Asha"); ("guests", JInt party);
    ("notificationMethod", JStr "sms"); ("contact", JStr "555-0100");
    ("hall", JStr "AC Hall"); ("segment", JStr "front");
    ("queueDate", JStr "2024-05-17") ]%string.

(** Three parties of two join one after the other. *)
Definition sample_store : store :=
  run [ Join (sample_payload "q1" 2) (sample_time 1);
        Join (sample_payload "q2" 2) (sample_time 2);
        Join (sample_payload "q3" 2) (sample_time 3) ] [].

(** The first party joins once more: its row stays first in the table and
    carries the latest join time. *)
Definition rejoined_store : store :=
  run [ Join (sample_payload "q1" 2) (sample_time 9) ] sample_store.

(** The status of the answer, if the handler answered. *)
Definition status_of (o : py (store * response)) : option Z :=
  match o with inr (_, r) => Some (status r) | inl _ => None end.

Definition ok_body : json := JObj [("ok"%string, JBool true)].

(* ===================================================================== *)
(** ** Properties of tables *)
(* ===================================================================== *)

(** [start, start+1, ..., start+n-1] *)
Fixpoint zseq (start : Z) (n : nat) : list Z :=
  match n with
  | O => []
  | S n' => start :: zseq (start + 1) n'
  end.

(** The rows of a group in ascending join time. *)
Definition group_rows (d : string) (g : Z) (h s : string) (st : store)
  : list QueueEntry :=
  order_by (cmp_on datetime_compare joined_at) (filter (in_group d g h s) st).

(** Positions of a group, read in ascending join time, are 1..N. *)
Definition contiguous (d : string) (g : Z) (h s : string) (st : store) : Prop :=
  map position (group_rows d g h s st)
  = zseq 1 (List.length (filter (in_group d g h s) st)).

Definition positions_contiguous (st : store) : Prop :=
  forall d g h s, contiguous d g h s st.

Definition string_lt (a b : string) : Prop := String.compare a b = Lt.

(** The columns a listing is ordered by. *)
Definition sort_key (e : QueueEntry) : string * string * string * Z :=
  (queue_date e, hall e, segment e, position e).

(** Two versions of a row that differ in position and estimate at most. *)
Definition same_but_position (x x' : QueueEntry) : Prop :=
  id x' = id x /\ name x' = name x /\ guests x' = guests x /\
  notification_method x' = notification_method x /\
  contact x' = contact x /\ hall x' = hall x /\ segment x' = segment x /\
  joined_at x' = joined_at x /\ queue_date x' = queue_date x /\
  notified_at_5_min x' = notified_at_5_min x.

(** [a] joined no later than [b]. *)
Definition joined_before (a b : QueueEntry) : Prop :=
  datetime_compare (joined_at a) (joined_at b) <> Gt.

(** [a] may stand before [b] in a listing: later date first, then hall,
    segment and position ascending. *)
Definition listed_before (a b : QueueEntry) : Prop :=
  string_lt (queue_date b) (queue_date a) \/
  (queue_date a = queue_date b /\
   (string_lt (hall a) (hall b) \/
    (hall a = hall b /\
     (string_lt (segment a) (segment b) \/
      (segment a = segment b /\ position a <= position b))))).

(** The group an entry belongs to. *)
Definition group_of (e : QueueEntry) : QueueEntry -> bool :=
  in_group (queue_date e) (guests e) (hall e) (segment e).

(** Table order is strictly ascending join time. *)
Definition time_ordered (st : store) : Prop :=
  StronglySorted (fun a b => datetime_compare (joined_at a) (joined_at b) = Lt) st.

(** What the reachable tables satisfy: distinct keys, rows in join order,
    and in every group the positions 1..N in table order. *)
Definition table_inv (st : store) : Prop :=
  unique_ids st /\ time_ordered st /\
  forall d g h s,
    map position (filter (in_group d g h s) st)
    = zseq 1 (List.length (filter (in_group d g h s) st)).

Section Specs.
Context `{PyBuiltins}.

Definition wait_matches_position (e : QueueEntry) : Prop :=
  estimated_wait_minutes e = float_of_int (position e * 60).

(** Rows renumbered from [idx] on, as [_resequence] writes them. *)
Fixpoint renumber (idx : Z) (rows : list QueueEntry) : list QueueEntry :=
  match rows with
  | [] => []
  | r :: rows' =>
      set_position idx (float_of_int (idx * 60)) r :: renumber (idx + 1) rows'
  end.

(** Where an id stands in a list of rows, counting from [idx]. *)
Fixpoint rank_from (idx : Z) (entry_id : string) (rows : list QueueEntry)
  : option Z :=
  match rows with
  | [] => None
  | r :: rows' =>
      if String.eqb (id r) entry_id then Some idx
      else rank_from (idx + 1) entry_id rows'
  end.

(** What the loop of [_resequence] over [rows] does to one row of the
    table. *)
Definition renum (idx : Z) (rows : list QueueEntry) (e : QueueEntry)
  : QueueEntry :=
  match rank_from idx (id e) rows with
  | Some k => set_position k (float_of_int (k * 60)) e
  | None => e
  end.

(** Every required field is there. *)
Definition complete (data : dict) : Prop :=
  Forall (fun k => dict_has k data = true) required.

(** The group a well-formed join payload addresses. *)
Definition payload_group (data : dict) (d : string) (g : Z) (h s : string)
  : Prop :=
  exists vd vg vh vs,
    dict_get "queueDate" data = Some vd /\ py_str vd = d /\
    dict_get "guests" data = Some vg /\ py_int vg = Some g /\
    dict_get "hall" data = Some vh /\ py_str vh = h /\
    dict_get "segment" data = Some vs /\ py_str vs = s.

(** The id a join payload carries, once converted. *)
Definition payload_id (data : dict) : option string :=
  option_map py_str (dict_get "id" data).

(** The row [join_queue] builds from a complete payload. *)
Definition joined_entry (data : dict) (now : datetime) (g : Z) (pos : Z)
  : QueueEntry :=
  mkQueueEntry
    (py_str (dict_get_default "id" JNull data))
    (py_str (dict_get_default "name" JNull data))
    g
    (py_str (dict_get_default "notificationMethod" JNull data))
    (py_str (dict_get_default "contact" JNull data))
    (py_str (dict_get_default "hall" JNull data))
    (py_str (dict_get_default "segment" JNull data))
    pos (float_of_int (pos * 60)) now
    (py_str (dict_get_default "queueDate" JNull data))
    (py_bool (dict_get_default "notifiedAt5Min" (JBool false) data)).

(** The rows a sequence of complete joins builds when they take the
    positions [idx], [idx+1], ... in order. *)
Fixpoint joined_entries (g : Z) (idx : Z) (reqs : list (dict * datetime))
  : list QueueEntry :=
  match reqs with
  | [] => []
  | (data, now) :: reqs' =>
      joined_entry data now g idx :: joined_entries g (idx + 1) reqs'
  end.

Definition created_response (e : QueueEntry) : py response :=
  inr (json_response (serialize_entry e) 201).

(** A join is admissible when its id is new to the table and the clock
    has moved past every stored join time. *)
Definition admissible (st : store) (r : request) : Prop :=
  match r with
  | Join data now =>
      (forall i, payload_id data = Some i -> query_get i st = None) /\
      Forall (fun e => datetime_compare (joined_at e) now = Lt) st
  | _ => True
  end.

Inductive reachable : store -> Prop :=
| reachable_empty : reachable []
| reachable_step st r :
    reachable st -> admissible st r -> reachable (step r st).

(** The estimate a patch asks for: none, a float, or the exception of
    [float]. *)
Definition wait_override (data : dict) : py (option pyfloat) :=
  if isinstance_int_float (dict_get "estimatedWaitMinutes" data)
  then py_bind (py_float (dict_get_default "estimatedWaitMinutes" JNull data))
         (fun w => py_ret (Some w))
  else py_ret None.

(** The row a patch with estimate [w] leaves in place of [e]. *)
Definition patched (data : dict) (w : option pyfloat) (e : QueueEntry)
  : QueueEntry :=
  let e1 := match dict_get "notifiedAt5Min" data with
            | Some (JBool b) => set_notified_at_5_min b e
            | _ => e
            end in
  match w with
  | Some w => set_estimated_wait_minutes w e1
  | None => e1
  end.

(** A patch that overrides the estimate. *)
Definition overrides_wait (r : request) : bool :=
  match r with
  | Patch _ data => isinstance_int_float (dict_get "estimatedWaitMinutes" data)
  | _ => false
  end.
End Specs.

(* ===================================================================== *)
(** ** A driver for concrete runs of the accessors *)
(* ===================================================================== *)

Module MongoSample.

(** The world counts the indexes the server built; a client is a URI, a
    database is its name. *)
Definition connect (uri : string) (w : nat) : (string + string) * nat :=
  (inr uri, w).

Definition database_of (c : string) (n : option string) (w : nat)
  : (string + string) * nat :=
  (inr match n with Some d => d | None => "restaurant_db"%string end, w).

(** A server that builds every index. *)
Definition build_index (c : Mongo.collection string) (key : string)
  (unique : bool) (w : nat) : (string + unit) * nat :=
  (inr tt, S w).

(** A server that refuses every index. *)
Definition refuse_index (c : Mongo.collection string) (key : string)
  (unique : bool) (w : nat) : (string + unit) * nat :=
  (inl "OperationFailure"%string, w).

Definition uri : string := "mongodb://127.0.0.1:27017/restaurant_db".

Definition fresh_state : Mongo.state nat string :=
  Mongo.mkState nat string None [] 0%nat.

End MongoSample.

(* ===================================================================== *)
(** * Facts about comparators and the sort *)
(* ===================================================================== *)

Section ComparatorFacts.
Context {A : Type} (c : A -> A -> comparison) `{!Comparator c}.

Lemma cmp_refl a : c a a = Eq.
Proof.
  pose proof (cmp_antisym a a) as E.
  destruct (c a a); simpl in E; congruence.
Qed.

Lemma cmp_eq_sym a b : c a b = Eq -> c b a = Eq.
Proof. intros E. rewrite (cmp_antisym a b), E. reflexivity. Qed.

Lemma cmp_eq_compat_r a b d : c a b = Eq -> c d a = c d b.
Proof.
  intros E. rewrite (cmp_antisym a d), (cmp_antisym b d).
  f_equal. now apply cmp_eq_compat.
Qed.

Lemma cmp_trans_gt a b d : c a b = Gt -> c b d = Gt -> c a d = Gt.
Proof.
  intros E1 E2.
  assert (c d b = Lt) as L1 by (rewrite (cmp_antisym b d), E2; reflexivity).
  assert (c b a = Lt) as L2 by (rewrite (cmp_antisym a b), E1; reflexivity).
  rewrite (cmp_antisym d a), (cmp_trans_lt d b a L1 L2). reflexivity.
Qed.

Lemma cmp_le_trans a b d : cmp_le c a b -> cmp_le c b d -> cmp_le c a d.
Proof.
  unfold cmp_le. intros H1 H2.
  destruct (c a b) eqn:E1; [ | | congruence ].
  - now rewrite (cmp_eq_compat a b d E1).
  - destruct (c b d) eqn:E2; [ | | congruence ].
    + rewrite <- (cmp_eq_compat_r b d a E2), E1. discriminate.
    + rewrite (cmp_trans_lt a b d E1 E2). discriminate.
Qed.

Lemma cmp_gt_le a b : c a b = Gt -> cmp_le c b a.
Proof.
  unfold cmp_le. intros E. rewrite (cmp_antisym a b), E. discriminate.
Qed.
End ComparatorFacts.

#[export] Instance Comparator_nat : Comparator Nat.compare.
Proof.
  split.
  - intros a b. apply Nat.compare_antisym.
  - intros a b d. rewrite !Nat.compare_lt_iff. lia.
  - intros a b d E. apply Nat.compare_eq in E. now subst.
Qed.

#[export] Instance Comparator_Z : Comparator Z.compare.
Proof.
  split.
  - intros a b. apply Z.compare_antisym.
  - intros a b d. rewrite !Z.compare_lt_iff. lia.
  - intros a b d E. apply Z.compare_eq in E. now subst.
Qed.

Lemma string_compare_trans_lt (a b d : string) :
  String.compare a b = Lt -> String.compare b d = Lt -> String.compare a d = Lt.
Proof.
  revert b d.
  induction a as [ | x a IH ]; intros [ | y b ] [ | z d ]; simpl;
    try discriminate; try reflexivity.
  unfold Ascii.compare.
  destruct (N.compare_spec (N_of_ascii x) (N_of_ascii y)) as [E1 | L1 | G1];
    destruct (N.compare_spec (N_of_ascii y) (N_of_ascii z)) as [E2 | L2 | G2];
    try discriminate; intros H1 H2.
  - rewrite E1, E2, N.compare_refl. now apply (IH b d).
  - rewrite E1. now apply N.compare_lt_iff in L2 as ->.
  - rewrite <- E2. now apply N.compare_lt_iff in L1 as ->.
  - assert (N_of_ascii x < N_of_ascii z)%N as L by lia.
    now apply N.compare_lt_iff in L as ->.
Qed.

#[export] Instance Comparator_string : Comparator String.compare.
Proof.
  split.
  - intros a b. apply String.compare_antisym.
  - apply string_compare_trans_lt.
  - intros a b d E. apply String.compare_eq_iff in E. now subst.
Qed.

#[export] Instance Comparator_on {A K : Type} (c : K -> K -> comparison)
  (key : A -> K) `{!Comparator c} : Comparator (cmp_on c key).
Proof.
  split; unfold cmp_on; intros.
  - apply cmp_antisym.
  - eapply cmp_trans_lt; eauto.
  - now apply cmp_eq_compat.
Qed.

#[export] Instance Comparator_desc {A : Type} (c : A -> A -> comparison)
  `{!Comparator c} : Comparator (desc c).
Proof.
  split; unfold desc.
  - intros a b. now rewrite (cmp_antisym a b).
  - intros a b d E1 E2.
    destruct (c a b) eqn:Eab; try discriminate.
    destruct (c b d) eqn:Ebd; try discriminate.
    now rewrite (cmp_trans_gt c a b d Eab Ebd).
  - intros a b d E. f_equal. apply cmp_eq_compat.
    now destruct (c a b).
Qed.

#[export] Instance Comparator_then {A : Type} (c1 c2 : A -> A -> comparison)
  `{!Comparator c1, !Comparator c2} : Comparator (then_by c1 c2).
Proof.
  split; unfold then_by.
  - intros a b. rewrite (cmp_antisym a b).
    destruct (c1 a b); simpl; auto using cmp_antisym.
  - intros a b d.
    destruct (c1 a b) eqn:E1; try discriminate;
      destruct (c1 b d) eqn:E2; try discriminate; intros H1 H2.
    + rewrite (cmp_eq_compat a b d E1), E2. eapply cmp_trans_lt; eauto.
    + now rewrite (cmp_eq_compat a b d E1), E2.
    + now rewrite <- (cmp_eq_compat_r c1 b d a E2), E1.
    + now rewrite (cmp_trans_lt a b d E1 E2).
  - intros a b d.
    destruct (c1 a b) eqn:E1; try discriminate. intros E2.
    rewrite (cmp_eq_compat a b d E1).
    destruct (c1 b d); auto using cmp_eq_compat.
Qed.

#[export] Instance Comparator_datetime : Comparator datetime_compare.
Proof. unfold datetime_compare. typeclasses eauto. Qed.

#[export] Instance Comparator_list_order : Comparator list_order.
Proof. unfold list_order. typeclasses eauto. Qed.

Section SortFacts.
Context {A : Type} (c : A -> A -> comparison).

Lemma insert_by_perm x l : Permutation (insert_by c x l) (x :: l).
Proof.
  induction l as [ | y l IH ]; simpl; auto.
  destruct (c x y); auto.
  rewrite IH. apply perm_swap.
Qed.

Lemma order_by_perm l : Permutation (order_by c l) l.
Proof.
  induction l as [ | x l IH ]; simpl; auto.
  rewrite insert_by_perm. now constructor.
Qed.

Lemma order_by_length l : List.length (order_by c l) = List.length l.
Proof. apply Permutation_length, order_by_perm. Qed.

Lemma order_by_In x l : In x (order_by c l) <-> In x l.
Proof.
  split; apply Permutation_in;
    [ | symmetry ]; apply order_by_perm.
Qed.

(** An element below the whole list goes to the front. *)
Lemma insert_by_front x l :
  Forall (cmp_le c x) l -> insert_by c x l = x :: l.
Proof.
  intros F. destruct F as [ | y l Hy _ ]; simpl; auto.
  unfold cmp_le in Hy. destruct (c x y); congruence.
Qed.

Lemma order_by_sorted_id l :
  StronglySorted (cmp_le c) l -> order_by c l = l.
Proof.
  induction 1 as [ | x l S IH F ]; simpl; auto.
  rewrite IH. now apply insert_by_front.
Qed.

Lemma insert_by_map (g : A -> A) x l :
  (forall a b, c (g a) (g b) = c a b) ->
  insert_by c (g x) (map g l) = map g (insert_by c x l).
Proof.
  intros G. induction l as [ | y l IH ]; simpl; auto.
  rewrite G. destruct (c x y); simpl; auto. now rewrite IH.
Qed.

Lemma order_by_map (g : A -> A) l :
  (forall a b, c (g a) (g b) = c a b) ->
  order_by c (map g l) = map g (order_by c l).
Proof.
  intros G. induction l as [ | x l IH ]; simpl; auto.
  rewrite IH. now apply insert_by_map.
Qed.

Context `{!Comparator c}.

Lemma insert_by_sorted x l :
  StronglySorted (cmp_le c) l -> StronglySorted (cmp_le c) (insert_by c x l).
Proof.
  induction 1 as [ | y l S IH F ]; simpl.
  - repeat constructor.
  - destruct (c x y) eqn:E.
    + constructor; [ now constructor | ].
      constructor; [ unfold cmp_le; congruence | ].
      eapply Forall_impl; [ | exact F ].
      intros z Hz. eapply cmp_le_trans; eauto. unfold cmp_le; congruence.
    + constructor; [ now constructor | ].
      constructor; [ unfold cmp_le; congruence | ].
      eapply Forall_impl; [ | exact F ].
      intros z Hz. eapply cmp_le_trans; eauto. unfold cmp_le; congruence.
    + constructor; auto.
      eapply Permutation_Forall; [ symmetry; apply insert_by_perm | ].
      constructor; auto. now apply cmp_gt_le.
Qed.

Lemma order_by_sorted l : StronglySorted (cmp_le c) (order_by c l).
Proof.
  induction l as [ | x l IH ]; simpl; [ constructor | ].
  now apply insert_by_sorted.
Qed.

(** The sort is stable, so it commutes with taking rows out. *)
Lemma insert_by_filter (P : A -> bool) x l :
  StronglySorted (cmp_le c) l ->
  filter P (insert_by c x l)
  = if P x then insert_by c x (filter P l) else filter P l.
Proof.
  induction 1 as [ | y l S IH F ]; simpl.
  - now destruct (P x).
  - destruct (c x y) eqn:E; simpl.
    + destruct (P x) eqn:Px; auto.
      symmetry. apply (insert_by_front x (filter P (y :: l))).
      apply Forall_forall. intros z Hz. apply filter_In in Hz as [Hz _].
      destruct Hz as [<- | Hz]; [ unfold cmp_le; congruence | ].
      rewrite Forall_forall in F.
      eapply cmp_le_trans; eauto. unfold cmp_le; congruence.
    + destruct (P x) eqn:Px; auto.
      symmetry. apply (insert_by_front x (filter P (y :: l))).
      apply Forall_forall. intros z Hz. apply filter_In in Hz as [Hz _].
      destruct Hz as [<- | Hz]; [ unfold cmp_le; congruence | ].
      rewrite Forall_forall in F.
      eapply cmp_le_trans; eauto. unfold cmp_le; congruence.
    + rewrite IH. destruct (P y) eqn:Py, (P x) eqn:Px; simpl; auto.
      now rewrite E.
Qed.

Lemma order_by_filter (P : A -> bool) l :
  order_by c (filter P l) = filter P (order_by c l).
Proof.
  induction l as [ | x l IH ]; simpl; auto.
  rewrite insert_by_filter by apply order_by_sorted.
  destruct (P x); simpl; now rewrite IH.
Qed.
End SortFacts.

(* ===================================================================== *)
(** * Facts about the table *)
(* ===================================================================== *)

Lemma in_group_true d g h s e :
  in_group d g h s e = true <->
  queue_date e = d /\ guests e = g /\ hall e = h /\ segment e = s.
Proof.
  unfold in_group.
  rewrite !andb_true_iff, !String.eqb_eq, Z.eqb_eq. tauto.
Qed.

Lemma group_of_self e : group_of e e = true.
Proof. apply in_group_true. auto. Qed.

(** A row of a group has that group as its own. *)
Lemma in_group_group_of d g h s e x :
  in_group d g h s e = true -> in_group d g h s x = group_of e x.
Proof.
  intros E. apply in_group_true in E as (<- & <- & <- & <-). reflexivity.
Qed.

Lemma query_get_Some i st e : query_get i st = Some e -> In e st /\ id e = i.
Proof.
  unfold query_get. intros E. apply find_some in E as [I E].
  now apply String.eqb_eq in E.
Qed.

Lemma query_get_None i st : query_get i st = None <-> ~ In i (map id st).
Proof.
  unfold query_get. induction st as [ | x st IH ]; simpl; [ tauto | ].
  destruct (String.eqb_spec (id x) i) as [E | N].
  - split; [ discriminate | ]. intros C. exfalso. auto.
  - rewrite IH. tauto.
Qed.

Lemma query_get_In st e :
  unique_ids st -> In e st -> query_get (id e) st = Some e.
Proof.
  unfold unique_ids, query_get.
  induction st as [ | x st IH ]; simpl; [ tauto | ].
  intros U [-> | I].
  - now rewrite String.eqb_refl.
  - inversion_clear U as [ | ? ? Nx U' ].
    destruct (String.eqb_spec (id x) (id e)) as [E | N]; auto.
    exfalso. apply Nx. rewrite E. now apply in_map.
Qed.

Lemma unique_ids_inj st a b :
  unique_ids st -> In a st -> In b st -> id a = id b -> a = b.
Proof.
  intros U Ia Ib E.
  pose proof (query_get_In st a U Ia) as Ga.
  pose proof (query_get_In st b U Ib) as Gb.
  rewrite E in Ga. congruence.
Qed.

Lemma unique_ids_filter P st : unique_ids st -> unique_ids (filter P st).
Proof.
  unfold unique_ids. induction st as [ | x st IH ]; simpl; auto.
  intros U. inversion_clear U as [ | ? ? Nx U' ].
  destruct (P x); simpl; auto.
  constructor; auto.
  intros C. apply Nx. apply in_map_iff in C as (y & E & I).
  apply filter_In in I as [I _]. rewrite <- E. now apply in_map.
Qed.

Lemma unique_ids_map (g : QueueEntry -> QueueEntry) st :
  (forall e, id (g e) = id e) -> unique_ids st -> unique_ids (map g st).
Proof.
  intros G. unfold unique_ids. rewrite map_map.
  now rewrite (map_ext _ id G).
Qed.

Lemma unique_ids_perm st st' :
  Permutation st st' -> unique_ids st -> unique_ids st'.
Proof.
  unfold unique_ids. intros P.
  apply Permutation_NoDup. now apply Permutation_map.
Qed.

(** Taking out the row with a given key shortens a table by one. *)
Lemma delete_length st e :
  unique_ids st -> In e st ->
  S (List.length (delete e st)) = List.length st.
Proof.
  unfold unique_ids, delete.
  induction st as [ | x st IH ]; simpl; [ tauto | ].
  intros U I. inversion_clear U as [ | ? ? Nx U' ].
  destruct (String.eqb_spec (id x) (id e)) as [E | N]; simpl.
  - f_equal.
    assert (filter (fun e0 => negb (String.eqb (id e0) (id e))) st = st) as ->;
      auto.
    apply forallb_filter_id, forallb_forall. intros y Iy.
    destruct (String.eqb_spec (id y) (id e)) as [E' | ]; auto.
    exfalso. apply Nx. rewrite E, <- E'. now apply in_map.
  - destruct I as [-> | I]; [ congruence | ]. f_equal. auto.
Qed.

Lemma delete_ids e st :
  map id (delete e st)
  = filter (fun i => negb (String.eqb i (id e))) (map id st).
Proof.
  unfold delete. induction st as [ | x st IH ]; simpl; auto.
  destruct (String.eqb (id x) (id e)); simpl; now rewrite IH.
Qed.

Lemma filter_filter_comm {A} (P Q : A -> bool) l :
  filter P (filter Q l) = filter Q (filter P l).
Proof.
  induction l as [ | x l IH ]; simpl; auto.
  destruct (P x) eqn:Px, (Q x) eqn:Qx; simpl; rewrite ?Px, ?Qx, IH; auto.
Qed.

Lemma filter_map_comm {A} (P : A -> bool) (g : A -> A) l :
  (forall x, P (g x) = P x) -> filter P (map g l) = map g (filter P l).
Proof.
  intros G. induction l as [ | x l IH ]; simpl; auto.
  rewrite G. destruct (P x); simpl; now rewrite IH.
Qed.

Lemma zseq_length start n : List.length (zseq start n) = n.
Proof. revert start. induction n; simpl; auto. Qed.

Lemma zseq_snoc start n : zseq start (S n) = zseq start n ++ [start + Z.of_nat n].
Proof.
  revert start. induction n as [ | n IH ]; intros start.
  - simpl. f_equal. lia.
  - change (zseq start (S (S n))) with (start :: zseq (start + 1) (S n)).
    rewrite IH. simpl. do 3 f_equal. lia.
Qed.

Section ResequenceFacts.
Context `{PyBuiltins}.

Lemma set_position_id k w e : id (set_position k w e) = id e.
Proof. reflexivity. Qed.

Lemma renum_id idx rows e : id (renum idx rows e) = id e.
Proof. unfold renum. now destruct (rank_from idx (id e) rows). Qed.

Lemma renum_joined_at idx rows e : joined_at (renum idx rows e) = joined_at e.
Proof. unfold renum. now destruct (rank_from idx (id e) rows). Qed.

Lemma renum_in_group idx rows d g h s e :
  in_group d g h s (renum idx rows e) = in_group d g h s e.
Proof. unfold renum. now destruct (rank_from idx (id e) rows). Qed.

Lemma rank_from_None idx i rows :
  ~ In i (map id rows) -> rank_from idx i rows = None.
Proof.
  revert idx. induction rows as [ | r rows IH ]; simpl; intros idx N; auto.
  destruct (String.eqb_spec (id r) i); [ tauto | ]. apply IH. tauto.
Qed.

Lemma rank_from_Some idx i rows k :
  rank_from idx i rows = Some k -> In i (map id rows).
Proof.
  revert idx. induction rows as [ | r rows IH ]; simpl; intros idx E;
    [ discriminate | ].
  destruct (String.eqb_spec (id r) i); eauto.
Qed.

(** The loop as one pass over the table. *)
Lemma resequence_rows_map rows : forall idx st,
  NoDup (map id rows) ->
  resequence_rows idx rows st = map (renum idx rows) st.
Proof.
  induction rows as [ | r rows IH ]; intros idx st U; simpl.
  - unfold renum. simpl. now rewrite map_id.
  - inversion_clear U as [ | ? ? Nr U' ].
    rewrite IH by assumption. unfold update_row. rewrite map_map.
    apply map_ext. intros e. unfold renum at 2. simpl.
    rewrite (String.eqb_sym (id r) (id e)).
    destruct (String.eqb_spec (id e) (id r)) as [E | N].
    + unfold renum. rewrite set_position_id.
      rewrite rank_from_None by (rewrite E; exact Nr).
      reflexivity.
    + reflexivity.
Qed.

Lemma renum_rows idx rows :
  NoDup (map id rows) -> map (renum idx rows) rows = renumber idx rows.
Proof.
  revert idx. induction rows as [ | r rows IH ]; intros idx U; simpl; auto.
  inversion_clear U as [ | ? ? Nr U' ].
  f_equal.
  - unfold renum. simpl. now rewrite String.eqb_refl.
  - rewrite <- IH by assumption. apply map_ext_in. intros e I.
    unfold renum. simpl.
    destruct (String.eqb_spec (id r) (id e)) as [E | N]; auto.
    exfalso. apply Nr. rewrite E. now apply in_map.
Qed.

Lemma renumber_positions idx rows :
  map position (renumber idx rows) = zseq idx (List.length rows).
Proof.
  revert idx. induction rows as [ | r rows IH ]; intros idx; simpl; auto.
  now rewrite IH.
Qed.

Lemma renumber_ids idx rows : map id (renumber idx rows) = map id rows.
Proof.
  revert idx. induction rows as [ | r rows IH ]; intros idx; simpl; auto.
  now rewrite IH.
Qed.

Lemma renumber_wait idx rows :
  Forall wait_matches_position (renumber idx rows).
Proof.
  revert idx. induction rows as [ | r rows IH ]; intros idx; simpl;
    constructor; auto.
  reflexivity.
Qed.

Lemma group_rows_unique d g h s st :
  unique_ids st -> NoDup (map id (group_rows d g h s st)).
Proof.
  intros U. unfold group_rows.
  apply (unique_ids_perm (filter (in_group d g h s) st)).
  - symmetry. apply order_by_perm.
  - now apply unique_ids_filter.
Qed.

Lemma _resequence_map d g h s st :
  unique_ids st ->
  _resequence d g h s st = map (renum 1 (group_rows d g h s st)) st.
Proof.
  intros U. unfold _resequence.
  now apply resequence_rows_map, group_rows_unique.
Qed.

(** The group of the call, read in join order, is renumbered from 1. *)
Lemma _resequence_group d g h s st :
  unique_ids st ->
  group_rows d g h s (_resequence d g h s st)
  = renumber 1 (group_rows d g h s st).
Proof.
  intros U. rewrite _resequence_map by assumption.
  unfold group_rows at 1.
  rewrite filter_map_comm by (intros; apply renum_in_group).
  rewrite order_by_map.
  - apply renum_rows. now apply group_rows_unique.
  - intros a b. unfold cmp_on. now rewrite !renum_joined_at.
Qed.

(** Rows outside the group of the call are left as they are. *)
Lemma _resequence_outside d g h s st e :
  unique_ids st -> In e st -> in_group d g h s e = false ->
  renum 1 (group_rows d g h s st) e = e.
Proof.
  intros U I O. unfold renum.
  destruct (rank_from 1 (id e) (group_rows d g h s st)) eqn:R; auto.
  exfalso. apply rank_from_Some in R.
  apply in_map_iff in R as (x & E & Ix).
  apply order_by_In, filter_In in Ix as [Ix G].
  assert (x = e) as -> by (eapply unique_ids_inj; eauto).
  congruence.
Qed.

Lemma _resequence_ids d g h s st :
  unique_ids st -> map id (_resequence d g h s st) = map id st.
Proof.
  intros U. rewrite _resequence_map by assumption.
  rewrite map_map. apply map_ext. intros. apply renum_id.
Qed.

Lemma _resequence_filter_other d g h s st (P : QueueEntry -> bool) :
  unique_ids st ->
  (forall e, P e = true -> in_group d g h s e = false) ->
  (forall idx rows e, P (renum idx rows e) = P e) ->
  filter P (_resequence d g h s st) = filter P st.
Proof.
  intros U O R. rewrite _resequence_map by assumption.
  rewrite filter_map_comm by (intros; apply R).
  rewrite <- (map_id (filter P st)) at 2.
  apply map_ext_in. intros e I. apply filter_In in I as [I Pe].
  apply _resequence_outside; auto.
Qed.
End ResequenceFacts.

(* ===================================================================== *)
(** * Cancelling *)
(* ===================================================================== *)

Section CancelFacts.
Context `{PyBuiltins}.

Lemma delete_group_rows e d g h s st :
  group_rows d g h s (delete e st)
  = filter (fun r => negb (String.eqb (id r) (id e))) (group_rows d g h s st).
Proof.
  unfold group_rows, delete.
  rewrite filter_filter_comm. apply order_by_filter. typeclasses eauto.
Qed.

Lemma delete_outside e st (P : QueueEntry -> bool) :
  unique_ids st -> In e st -> P e = false ->
  filter P (delete e st) = filter P st.
Proof.
  intros U I O. unfold delete. rewrite filter_filter_comm.
  apply forallb_filter_id, forallb_forall. intros x Ix.
  apply filter_In in Ix as [Ix Px].
  destruct (String.eqb_spec (id x) (id e)) as [E | ]; auto.
  assert (x = e) as -> by (eapply unique_ids_inj; eauto).
  congruence.
Qed.

Lemma cancel_queue_found entry_id st e :
  query_get entry_id st = Some e ->
  cancel_queue entry_id st
  = inr (_resequence (queue_date e) (guests e) (hall e) (segment e)
           (delete e st),
         json_response ok_body 200).
Proof. unfold cancel_queue. now intros ->. Qed.

Lemma cancel_queue_absent entry_id st :
  query_get entry_id st = None ->
  cancel_queue entry_id st
  = inr (st, json_response (error_body "not_found") 404).
Proof. unfold cancel_queue. now intros ->. Qed.
End CancelFacts.

Lemma Forall2_map_r {A B} (f : A -> B) (R : A -> B -> Prop) l :
  (forall x, R x (f x)) -> Forall2 R l (map f l).
Proof. intros F. induction l; simpl; constructor; auto. Qed.

Lemma renum_same_but_position `{PyBuiltins} idx rows x :
  same_but_position x (renum idx rows x).
Proof.
  unfold renum, same_but_position.
  destruct (rank_from idx (id x) rows); simpl; repeat split; reflexivity.
Qed.

(** C4: cancelling a stored entry answers 200 and removes exactly the row
    with that id; every other row keeps all its fields but position and
    estimate, and rows outside the entry's (queueDate, guests, hall,
    segment) group keep those too.  The remaining rows of the group, taken
    in ascending join time, carry the positions 1..N-1 (N the size of the
    group before) with the estimates of those positions: they are the
    group's former rows, in the same join order, without the cancelled
    one. *)
Theorem cancel_queue_renumbers_group `{PyBuiltins} st entry_id e :
  unique_ids st ->
  query_get entry_id st = Some e ->
  exists st',
    cancel_queue entry_id st = inr (st', json_response ok_body 200) /\
    map id st' = filter (fun i => negb (String.eqb i entry_id)) (map id st) /\
    Forall2 same_but_position
      (filter (fun r => negb (String.eqb (id r) entry_id)) st) st' /\
    filter (fun r => negb (group_of e r)) st'
    = filter (fun r => negb (group_of e r)) st /\
    (exists rows,
       Permutation rows (filter (group_of e) st') /\
       StronglySorted joined_before rows /\
       map position rows
       = zseq 1 (List.length (filter (group_of e) st) - 1) /\
       Forall wait_matches_position rows) /\
    group_rows (queue_date e) (guests e) (hall e) (segment e) st'
    = renumber 1
        (filter (fun r => negb (String.eqb (id r) entry_id))
           (group_rows (queue_date e) (guests e) (hall e) (segment e) st)).
Proof.
  intros U G.
  destruct (query_get_Some _ _ _ G) as [I E]. subst entry_id.
  assert (unique_ids (delete e st)) as U1 by now apply unique_ids_filter.
  pose proof (_resequence_group (queue_date e) (guests e) (hall e) (segment e)
                (delete e st) U1) as R.
  eexists. split; [ apply cancel_queue_found; exact G | ].
  split; [ | split; [ | split; [ | split ] ] ].
  - rewrite _resequence_ids by assumption. apply delete_ids.
  - rewrite _resequence_map by assumption.
    apply Forall2_map_r. intros x. apply renum_same_but_position.
  - rewrite _resequence_filter_other; auto.
    + apply delete_outside; auto. now rewrite group_of_self.
    + intros x Px. unfold group_of in Px.
      now destruct (in_group _ _ _ _ x).
    + intros idx rows x. unfold group_of. now rewrite renum_in_group.
  - exists (group_rows (queue_date e) (guests e) (hall e) (segment e)
              (_resequence (queue_date e) (guests e) (hall e) (segment e)
                 (delete e st))).
    split; [ apply order_by_perm | ].
    split.
    { exact (order_by_sorted (cmp_on datetime_compare joined_at) _). }
    rewrite R. split; [ | apply renumber_wait ].
    rewrite renumber_positions. f_equal.
    unfold group_rows. rewrite order_by_length.
    unfold delete. rewrite filter_filter_comm.
    assert (In e (filter (group_of e) st)) as Ie
      by (apply filter_In; split; [ assumption | apply group_of_self ]).
    pose proof (delete_length (filter (group_of e) st) e
                  (unique_ids_filter _ _ U) Ie) as L.
    unfold delete in L. unfold group_of in *. lia.
  - rewrite R. now rewrite delete_group_rows.
Qed.

Lemma sample_store_unique : unique_ids sample_store.
Proof.
  unfold unique_ids. vm_compute.
  repeat constructor; simpl; intuition discriminate.
Qed.

Lemma rejoined_store_unique : unique_ids rejoined_store.
Proof.
  unfold unique_ids. vm_compute.
  repeat constructor; simpl; intuition discriminate.
Qed.

(** The table holds q1 (joined last), q2, q3 in this order; after q2 is
    cancelled q3, the earlier to join, is first and q1 second. *)
Lemma cancel_queue_renumbers_group_witness :
  map id rejoined_store = ["q1"; "q2"; "q3"]%string /\
  exists st',
    cancel_queue "q2" rejoined_store = inr (st', json_response ok_body 200) /\
    map id st' = ["q1"; "q3"]%string /\
    map position st' = [2; 1].
Proof.
  split; [ reflexivity | ].
  destruct (cancel_queue_renumbers_group rejoined_store "q2"
              (joined_entry (sample_payload "q2" 2) (sample_time 2) 2 2)
              rejoined_store_unique eq_refl)
    as (st' & E & Ids & _).
  exists st'. split; [ exact E | ]. split; [ exact Ids | ].
  vm_compute in E. injection E as <-. reflexivity.
Defined.

(* ===================================================================== *)
(** * Missing fields and missing entries *)
(* ===================================================================== *)

(** The loop over [required] stops at the first key the payload lacks. *)
Lemma first_missing_split ks data :
  (exists k, In k ks /\ dict_has k data = false) ->
  exists pre k post,
    ks = pre ++ k :: post /\
    Forall (fun k' => dict_has k' data = true) pre /\
    dict_has k data = false /\
    first_missing ks data = Some k.
Proof.
  induction ks as [ | k0 ks IH ]; intros (k & I & M); [ destruct I | ].
  simpl. destruct (dict_has k0 data) eqn:E0.
  - destruct I as [-> | I]; [ congruence | ].
    destruct IH as (pre & k1 & post & -> & F & M1 & R); eauto.
    exists (k0 :: pre), k1, post. repeat split; auto.
  - exists [], k0, ks. repeat split; auto.
Qed.

Lemma first_missing_None ks data :
  first_missing ks data = None <->
  Forall (fun k => dict_has k data = true) ks.
Proof.
  induction ks as [ | k ks IH ]; simpl.
  - split; auto.
  - destruct (dict_has k data) eqn:E.
    + rewrite IH. split; [ now constructor | now inversion 1 ].
    + split; [ discriminate | inversion 1; congruence ].
Qed.

(** C5: a join payload that lacks one of the required fields is answered
    400 with [{error: "<field>_required"}] for the first missing field in
    the order id, name, guests, notificationMethod, contact, hall, segment,
    queueDate, and the table is left as it was. *)
Theorem join_queue_missing_field `{PyBuiltins} data now st :
  (exists k, In k required /\ dict_has k data = false) ->
  exists pre k post,
    required = pre ++ k :: post /\
    Forall (fun k' => dict_has k' data = true) pre /\
    dict_has k data = false /\
    join_queue data now st
    = inr (st, json_response
                 (JObj [("error"%string, JStr (String.append k "_required"))])
                 400).
Proof.
  intros M.
  destruct (first_missing_split required data M) as (pre & k & post & E & F & Mk & R).
  exists pre, k, post. repeat split; auto.
  unfold join_queue. now rewrite R.
Qed.

Lemma join_queue_missing_field_witness :
  exists pre k post,
    required = pre ++ k :: post /\
    Forall (fun k' => dict_has k' [("id", JStr "q9"); ("hall", JNull)]%string
                      = true) pre /\
    dict_has k [("id", JStr "q9"); ("hall", JNull)]%string = false /\
    join_queue [("id", JStr "q9"); ("hall", JNull)]%string (sample_time 4)
      sample_store
    = inr (sample_store,
           json_response
             (JObj [("error"%string, JStr (String.append k "_required"))]) 400).
Proof.
  apply (join_queue_missing_field
           [("id", JStr "q9"); ("hall", JNull)]%string (sample_time 4)
           sample_store).
  exists "name"%string. split; [ simpl; tauto | reflexivity ].
Defined.

Section NotFound.
Context `{PyBuiltins}.

Lemma update_queue_entry_absent entry_id data st :
  query_get entry_id st = None ->
  update_queue_entry entry_id data st
  = inr (st, json_response (error_body "not_found") 404).
Proof. unfold update_queue_entry. now intros ->. Qed.

(** A patch of a stored row whose estimate converts is written and
    answered 200. *)
Lemma update_queue_entry_found entry_id data st e w :
  query_get entry_id st = Some e ->
  wait_override data = inr w ->
  update_queue_entry entry_id data st
  = inr (update_row entry_id (fun _ => patched data w e) st,
         json_response (serialize_entry (patched data w e)) 200).
Proof.
  unfold update_queue_entry, wait_override, patched. intros -> W.
  destruct (isinstance_int_float (dict_get "estimatedWaitMinutes" data)).
  - destruct (py_float (dict_get_default "estimatedWaitMinutes" JNull data));
      simpl in W; [ discriminate | ].
    injection W as <-. reflexivity.
  - injection W as <-. reflexivity.
Qed.

(** When [float] raises, the exception leaves the handler. *)
Lemma update_queue_entry_raises entry_id data st e ex :
  query_get entry_id st = Some e ->
  wait_override data = inl ex ->
  update_queue_entry entry_id data st = inl ex.
Proof.
  unfold update_queue_entry, wait_override. intros -> W.
  destruct (isinstance_int_float (dict_get "estimatedWaitMinutes" data));
    [ | discriminate ].
  destruct (py_float (dict_get_default "estimatedWaitMinutes" JNull data));
    simpl in W; [ | discriminate ].
  injection W as <-. reflexivity.
Qed.

Lemma update_queue_entry_inv entry_id data st e st' r :
  query_get entry_id st = Some e ->
  update_queue_entry entry_id data st = inr (st', r) ->
  exists w,
    wait_override data = inr w /\
    st' = update_row entry_id (fun _ => patched data w e) st /\
    r = json_response (serialize_entry (patched data w e)) 200.
Proof.
  intros G Up. destruct (wait_override data) as [ex | w] eqn:W.
  - rewrite (update_queue_entry_raises _ _ _ _ _ G W) in Up. discriminate.
  - rewrite (update_queue_entry_found _ _ _ _ _ G W) in Up.
    injection Up as <- <-. eauto.
Qed.

Lemma update_queue_entry_found_status entry_id data st e :
  query_get entry_id st = Some e ->
  status_of (update_queue_entry entry_id data st) <> Some 404.
Proof.
  intros G. destruct (wait_override data) as [ex | w] eqn:W.
  - rewrite (update_queue_entry_raises _ _ _ _ _ G W). discriminate.
  - rewrite (update_queue_entry_found _ _ _ _ _ G W). discriminate.
Qed.
End NotFound.

(** C6: DELETE /queue/<entry_id> answers 404 exactly when no row has that
    id, and then the answer is [{error: "not_found"}] and the table is left
    as it was; the same holds for PATCH /queue/<entry_id> with any payload. *)
Theorem not_found_iff_absent `{PyBuiltins} entry_id data st :
  (status_of (cancel_queue entry_id st) = Some 404
   <-> ~ In entry_id (map id st)) /\
  (status_of (update_queue_entry entry_id data st) = Some 404
   <-> ~ In entry_id (map id st)) /\
  (~ In entry_id (map id st) ->
   cancel_queue entry_id st
   = inr (st, json_response (JObj [("error"%string, JStr "not_found")]) 404) /\
   update_queue_entry entry_id data st
   = inr (st, json_response (JObj [("error"%string, JStr "not_found")]) 404)).
Proof.
  rewrite <- query_get_None.
  destruct (query_get entry_id st) as [e | ] eqn:G.
  - rewrite (cancel_queue_found _ _ _ G).
    pose proof (update_queue_entry_found_status _ data _ _ G) as NS. simpl.
    repeat split; intros; try discriminate; contradiction.
  - rewrite (cancel_queue_absent _ _ G), (update_queue_entry_absent _ data _ G).
    simpl. repeat split; auto.
Qed.

(* ===================================================================== *)
(** * Patching *)
(* ===================================================================== *)

Lemma update_row_Forall2 entry_id (e' : QueueEntry) st :
  Forall2 (fun x x' => x' = if String.eqb (id x) entry_id then e' else x)
    st (update_row entry_id (fun _ => e') st).
Proof.
  unfold update_row. induction st as [ | x st IH ]; simpl; constructor; auto.
Qed.

(** C8, as the code has it: PATCH /queue/<id> on a stored entry either lets
    the OverflowError of float() escape, with no answer and nothing written
    (the payload's estimatedWaitMinutes is an int beyond the float range),
    or answers with the serialized updated entry; then [notified_at_5_min]
    moves only when the payload's notifiedAt5Min is a boolean (and takes
    that value), [estimated_wait_minutes] moves only when the payload's
    estimatedWaitMinutes is an int or a float (and takes its value as a
    float); the ten other fields of the entry and every other row stay. *)
Theorem update_queue_entry_frame `{PyBuiltins} entry_id data st e :
  query_get entry_id st = Some e ->
  (exists v,
     dict_get "estimatedWaitMinutes" data = Some v /\
     isinstance_int_float (Some v) = true /\
     py_float v = inl OverflowError /\
     update_queue_entry entry_id data st = inl OverflowError /\
     step (Patch entry_id data) st = st) \/
  (exists e' st',
    update_queue_entry entry_id data st
    = inr (st', json_response (serialize_entry e') 200) /\
    (id e' = id e /\ name e' = name e /\ guests e' = guests e /\
     notification_method e' = notification_method e /\
     contact e' = contact e /\ hall e' = hall e /\ segment e' = segment e /\
     position e' = position e /\ joined_at e' = joined_at e /\
     queue_date e' = queue_date e) /\
    (isinstance_bool (dict_get "notifiedAt5Min" data) = false ->
     notified_at_5_min e' = notified_at_5_min e) /\
    (forall b, dict_get "notifiedAt5Min" data = Some (JBool b) ->
               notified_at_5_min e' = b) /\
    (isinstance_int_float (dict_get "estimatedWaitMinutes" data) = false ->
     estimated_wait_minutes e' = estimated_wait_minutes e) /\
    (forall v, dict_get "estimatedWaitMinutes" data = Some v ->
               isinstance_int_float (Some v) = true ->
               py_float v = inr (estimated_wait_minutes e')) /\
    Forall2 (fun x x' => x' = if String.eqb (id x) entry_id then e' else x)
      st st').
Proof.
  intros G.
  destruct (isinstance_int_float (dict_get "estimatedWaitMinutes" data))
    eqn:I.
  - destruct (dict_get "estimatedWaitMinutes" data) as [v | ] eqn:Ev;
      [ | discriminate ].
    destruct (py_float v) as [ex | w] eqn:Pf.
    + left. exists v.
      assert (ex = OverflowError) as ->.
      { destruct v as [ | b | z | f | | | ]; simpl in I; try discriminate;
          simpl in Pf; unfold float_, py_raise, py_ret in Pf;
          try destruct (float_raises _); congruence. }
      assert (wait_override data = inl OverflowError) as W.
      { unfold wait_override, dict_get_default. now rewrite Ev, I, Pf. }
      pose proof (update_queue_entry_raises _ _ _ _ _ G W) as Up.
      repeat split; auto.
      unfold step. simpl. now rewrite Up.
    + right.
      assert (wait_override data = inr (Some w)) as W.
      { unfold wait_override, dict_get_default. now rewrite Ev, I, Pf. }
      exists (patched data (Some w) e),
        (update_row entry_id (fun _ => patched data (Some w) e) st).
      split; [ now apply update_queue_entry_found | ].
      unfold patched.
      split; [ | split; [ | split; [ | split; [ | split ] ] ] ].
      * destruct (dict_get "notifiedAt5Min" data) as [ [ | b | | | | | ] | ];
          simpl; repeat split; reflexivity.
      * intros NB.
        destruct (dict_get "notifiedAt5Min" data) as [ [ | b | | | | | ] | ];
          try discriminate; reflexivity.
      * intros b ->. reflexivity.
      * discriminate.
      * intros v' E' _. injection E' as <-. rewrite Pf.
        now destruct (dict_get "notifiedAt5Min" data)
          as [ [ | b | | | | | ] | ].
      * apply update_row_Forall2.
  - right.
    assert (wait_override data = inr None) as W
      by (unfold wait_override; now rewrite I).
    exists (patched data None e),
      (update_row entry_id (fun _ => patched data None e) st).
    split; [ now apply update_queue_entry_found | ].
    unfold patched.
    split; [ | split; [ | split; [ | split; [ | split ] ] ] ].
    + destruct (dict_get "notifiedAt5Min" data) as [ [ | b | | | | | ] | ];
        simpl; repeat split; reflexivity.
    + intros NB.
      destruct (dict_get "notifiedAt5Min" data) as [ [ | b | | | | | ] | ];
        try discriminate; reflexivity.
    + intros b ->. reflexivity.
    + intros _.
      now destruct (dict_get "notifiedAt5Min" data) as [ [ | b | | | | | ] | ].
    + intros v E Iv. rewrite E in I. congruence.
    + apply update_row_Forall2.
Qed.

Lemma update_queue_entry_frame_witness :
  exists e' st',
    update_queue_entry "q2"
      [("notifiedAt5Min", JBool true); ("estimatedWaitMinutes", JInt 15)]%string
      sample_store
    = inr (st', json_response (serialize_entry e') 200) /\
    position e' = 2 /\ notified_at_5_min e' = true /\
    estimated_wait_minutes e' = binary64_of_int 15.
Proof.
  destruct (update_queue_entry_frame "q2"
              [("notifiedAt5Min", JBool true);
               ("estimatedWaitMinutes", JInt 15)]%string
              sample_store
              (joined_entry (sample_payload "q2" 2) (sample_time 2) 2 2)
              eq_refl)
    as [ (v & _ & _ & _ & Up & _)
       | (e' & st' & E & (_ & _ & _ & _ & _ & _ & _ & P & _)
          & _ & B & _ & W & _) ].
  - vm_compute in Up. discriminate.
  - exists e', st'. split; [ exact E | ]. split; [ exact P | ].
    split; [ apply B; reflexivity | ].
    specialize (W (JInt 15) eq_refl eq_refl).
    change (py_float (JInt 15))
      with (@inr exn pyfloat (binary64_of_int 15)) in W.
    injection W as <-. reflexivity.
Defined.

(** C8 as stated fails: an int beyond the float range passes the isinstance
    test, float() raises OverflowError, and the handler gives no answer. *)
Lemma update_queue_entry_frame_counterexample :
  update_queue_entry "q2"
    [("estimatedWaitMinutes"%string, JInt (10 ^ 400))] sample_store
  = inl OverflowError /\
  ~ (exists st' r,
       update_queue_entry "q2"
         [("estimatedWaitMinutes"%string, JInt (10 ^ 400))] sample_store
       = inr (st', r)).
Proof.
  assert (update_queue_entry "q2"
            [("estimatedWaitMinutes"%string, JInt (10 ^ 400))] sample_store
          = inl OverflowError) as E by (vm_compute; reflexivity).
  split; [ exact E | ].
  intros (st' & r & E'). rewrite E in E'. discriminate.
Qed.

(* ===================================================================== *)
(** * Listing *)
(* ===================================================================== *)

Lemma cmp_le_then_by {A} (c1 c2 : A -> A -> comparison) a b :
  cmp_le (then_by c1 c2) a b <->
  c1 a b = Lt \/ (c1 a b = Eq /\ cmp_le c2 a b).
Proof.
  unfold cmp_le, then_by. destruct (c1 a b); intuition congruence.
Qed.

Lemma string_compare_Eq a b : String.compare a b = Eq <-> a = b.
Proof.
  split; [ apply String.compare_eq_iff | ].
  intros ->. apply (cmp_refl String.compare).
Qed.

Lemma string_compare_Gt a b : String.compare a b = Gt <-> string_lt b a.
Proof.
  unfold string_lt. rewrite (String.compare_antisym b a).
  destruct (String.compare a b); simpl; intuition congruence.
Qed.

Lemma list_order_listed_before a b :
  cmp_le list_order a b <-> listed_before a b.
Proof.
  unfold list_order, listed_before.
  rewrite !cmp_le_then_by. unfold desc, cmp_on.
  rewrite <- !string_compare_Eq, <- string_compare_Gt.
  change (cmp_le Z.compare (position a) (position b))
    with (position a <= position b).
  unfold string_lt.
  destruct (String.compare (queue_date a) (queue_date b)); simpl;
    intuition congruence.
Qed.

Lemma StronglySorted_impl {A} (R R' : A -> A -> Prop) l :
  (forall a b, R a b -> R' a b) -> StronglySorted R l -> StronglySorted R' l.
Proof.
  intros I. induction 1 as [ | x l S IH F ]; constructor; auto.
  eapply Forall_impl; [ | exact F ]. auto.
Qed.

(** C7: GET /queue with a non-empty queueDate answers with exactly the rows
    of that date, and without the parameter with all rows, in both cases
    sorted by date descending, then hall, segment and position ascending. *)
Theorem list_queue_filtered_sorted `{PyBuiltins} st date :
  date <> Some EmptyString ->
  exists rows,
    list_queue date st
    = json_response (JObj [("entries"%string, JArr (map serialize_entry rows))])
        200 /\
    Permutation rows
      match date with
      | Some d => filter (fun e => String.eqb (queue_date e) d) st
      | None => st
      end /\
    StronglySorted listed_before rows.
Proof.
  intros NE. unfold list_queue.
  set (q := match date with
            | Some d => if String.eqb d EmptyString then st
                        else filter (fun e => String.eqb (queue_date e) d) st
            | None => st
            end).
  exists (order_by list_order q). split; [ reflexivity | ]. split.
  - rewrite order_by_perm. subst q.
    destruct date as [d | ]; auto.
    destruct (String.eqb_spec d EmptyString) as [-> | ]; [ congruence | auto ].
  - eapply StronglySorted_impl; [ apply list_order_listed_before | ].
    apply order_by_sorted. typeclasses eauto.
Qed.

Lemma list_queue_filtered_sorted_witness :
  exists rows,
    list_queue (Some "2024-05-17"%string) sample_store
    = json_response (JObj [("entries"%string, JArr (map serialize_entry rows))])
        200 /\
    Permutation rows
      (filter (fun e => String.eqb (queue_date e) "2024-05-17") sample_store) /\
    StronglySorted listed_before rows.
Proof.
  apply (list_queue_filtered_sorted sample_store (Some "2024-05-17"%string)).
  discriminate.
Defined.

(* ===================================================================== *)
(** * Joining *)
(* ===================================================================== *)

Lemma dict_has_get k data :
  dict_has k data = true -> exists v, dict_get k data = Some v.
Proof.
  unfold dict_has. destruct (dict_get k data) as [v | ]; [ eauto | discriminate ].
Qed.

Section MergeFacts.

Lemma merge_fresh e st : query_get (id e) st = None -> merge e st = st ++ [e].
Proof. unfold merge. now intros ->. Qed.

Lemma merge_existing e st x :
  query_get (id e) st = Some x ->
  merge e st = map (fun y => if String.eqb (id y) (id e) then e else y) st.
Proof. unfold merge. now intros ->. Qed.

Lemma merge_In e st x :
  In x (merge e st) -> x = e \/ (In x st /\ id x <> id e).
Proof.
  unfold merge. destruct (query_get (id e) st) eqn:G.
  - intros I. apply in_map_iff in I as (y & E & I).
    destruct (String.eqb_spec (id y) (id e)); subst; auto.
  - intros I. apply in_app_or in I as [I | [<- | []]]; auto.
    right. split; auto. intros E.
    apply query_get_None in G. apply G. rewrite <- E. now apply in_map.
Qed.

Lemma merge_ids_existing e st x :
  query_get (id e) st = Some x -> map id (merge e st) = map id st.
Proof.
  intros G. rewrite (merge_existing _ _ _ G), map_map.
  apply map_ext. intros y.
  now destruct (String.eqb_spec (id y) (id e)).
Qed.

Lemma merge_unique e st : unique_ids st -> unique_ids (merge e st).
Proof.
  intros U. destruct (query_get (id e) st) as [x | ] eqn:G.
  - unfold unique_ids. now rewrite (merge_ids_existing _ _ _ G).
  - rewrite (merge_fresh _ _ G). unfold unique_ids.
    rewrite map_app. simpl.
    apply NoDup_app; [ assumption | repeat constructor; auto | ].
    intros i I [<- | []]. now apply query_get_None in G.
Qed.

Lemma merge_query_get_same e st : query_get (id e) (merge e st) = Some e.
Proof.
  destruct (query_get (id e) st) as [x | ] eqn:G.
  - rewrite (merge_existing _ _ _ G). revert G. unfold query_get.
    induction st as [ | y st IH ]; simpl; [ discriminate | ].
    destruct (String.eqb_spec (id y) (id e)) as [E | N].
    + now rewrite String.eqb_refl.
    + intros G. apply String.eqb_neq in N. now rewrite N; auto.
  - rewrite (merge_fresh _ _ G). revert G. unfold query_get.
    induction st as [ | y st IH ]; simpl.
    + now rewrite String.eqb_refl.
    + destruct (String.eqb (id y) (id e)); [ discriminate | auto ].
Qed.

Lemma merge_query_get_other e st j :
  j <> id e -> query_get j (merge e st) = query_get j st.
Proof.
  intros N. destruct (query_get (id e) st) as [x | ] eqn:G.
  - rewrite (merge_existing _ _ _ G). clear G. unfold query_get.
    induction st as [ | y st IH ]; simpl; auto.
    destruct (String.eqb_spec (id y) (id e)) as [E | N'].
    + apply String.eqb_neq in N. rewrite String.eqb_sym, N.
      rewrite E, String.eqb_sym, N. exact IH.
    + destruct (String.eqb (id y) j); auto.
  - rewrite (merge_fresh _ _ G). clear G. unfold query_get.
    apply not_eq_sym, String.eqb_neq in N.
    induction st as [ | y st IH ]; simpl.
    + now rewrite N.
    + destruct (String.eqb (id y) j); auto.
Qed.

(** A row merged into a group it was not in makes the group one larger. *)
Lemma merge_group_grows (P : QueueEntry -> bool) e st :
  unique_ids st -> P e = true ->
  (forall x, In x st -> id x = id e -> P x = false) ->
  List.length (filter P (merge e st)) = S (List.length (filter P st)).
Proof.
  intros U Pe O. destruct (query_get (id e) st) as [x0 | ] eqn:G.
  - rewrite (merge_existing _ _ _ G).
    apply query_get_Some in G as [I E0].
    apply (in_map id) in I. rewrite E0 in I. clear x0 E0.
    revert U O I. unfold unique_ids.
    induction st as [ | y st IH ]; simpl; [ tauto | ].
    intros U O I. inversion_clear U as [ | ? ? Ny U' ].
    destruct (String.eqb_spec (id y) (id e)) as [E | N].
    + assert (map (fun z => if String.eqb (id z) (id e) then e else z) st = st)
        as ->.
      { rewrite <- (map_id st) at 2. apply map_ext_in. intros z Iz.
        destruct (String.eqb_spec (id z) (id e)) as [E' | ]; auto.
        exfalso. apply Ny. rewrite E, <- E'. now apply in_map. }
      rewrite Pe, (O y) by auto. reflexivity.
    + destruct I as [I | I]; [ rewrite I in N; congruence | ].
      destruct (P y); simpl; rewrite IH; auto.
  - rewrite (merge_fresh _ _ G), filter_app, length_app. simpl.
    rewrite Pe. simpl. lia.
Qed.



End MergeFacts.

Section JoinFacts.
Context `{PyBuiltins}.

Lemma complete_get data k :
  complete data -> In k required -> exists v, dict_get k data = Some v.
Proof.
  intros C I. apply dict_has_get.
  unfold complete in C. rewrite Forall_forall in C. auto.
Qed.

Lemma complete_first_missing data :
  complete data -> first_missing required data = None.
Proof. intros C. now apply first_missing_None. Qed.

(** A complete payload whose guests convert is merged and answered 201. *)
Lemma join_queue_complete data now st d g h s :
  complete data -> payload_group data d g h s ->
  join_queue data now st
  = inr (merge (joined_entry data now g (_next_position d g h s st)) st,
         json_response
           (serialize_entry
              (joined_entry data now g (_next_position d g h s st))) 201).
Proof.
  intros C (vd & vg & vh & vs & Ed & <- & Eg & Ig & Eh & <- & Es & <-).
  destruct (complete_get data "id" C) as [vi Ei]; [ simpl; tauto | ].
  destruct (complete_get data "name" C) as [vn En]; [ simpl; tauto | ].
  destruct (complete_get data "notificationMethod" C) as [vm Em];
    [ simpl; tauto | ].
  destruct (complete_get data "contact" C) as [vc Ec]; [ simpl; tauto | ].
  unfold join_queue, joined_entry, subscript, int_, dict_get_default.
  rewrite (complete_first_missing data C).
  rewrite Ed, Eg, Eh, Es, Ei, En, Em, Ec. simpl. rewrite Ig. reflexivity.
Qed.

(** What a join can do to the table. *)
Lemma join_queue_inv data now st st' r :
  join_queue data now st = inr (st', r) ->
  st' = st \/
  exists d g h s,
    complete data /\ payload_group data d g h s /\
    st' = merge (joined_entry data now g (_next_position d g h s st)) st.
Proof.
  intros J.
  destruct (first_missing required data) as [k | ] eqn:M.
  - unfold join_queue in J. rewrite M in J. injection J as <- _. now left.
  - apply first_missing_None in M.
    destruct (complete_get data "guests" M) as [vg Eg]; [ simpl; tauto | ].
    destruct (complete_get data "hall" M) as [vh Eh]; [ simpl; tauto | ].
    destruct (complete_get data "segment" M) as [vs Es]; [ simpl; tauto | ].
    destruct (complete_get data "queueDate" M) as [vd Ed]; [ simpl; tauto | ].
    destruct (py_int vg) as [g | ] eqn:Ig.
    + right. exists (py_str vd), g, (py_str vh), (py_str vs).
      assert (payload_group data (py_str vd) g (py_str vh) (py_str vs)) as PG
        by (exists vd, vg, vh, vs; auto 10).
      rewrite (join_queue_complete _ now st _ _ _ _ M PG) in J.
      injection J as <- _. auto.
    + unfold join_queue, subscript, int_ in J.
      rewrite (complete_first_missing data M), Eg in J. simpl in J.
      rewrite Ig in J. discriminate.
Qed.

Lemma joined_entry_id data now g pos i :
  payload_id data = Some i -> id (joined_entry data now g pos) = i.
Proof.
  unfold payload_id, joined_entry, dict_get_default. simpl.
  destruct (dict_get "id" data); simpl; congruence.
Qed.

Lemma joined_entry_in_group data now pos d g h s :
  payload_group data d g h s ->
  in_group d g h s (joined_entry data now g pos) = true.
Proof.
  intros (vd & vg & vh & vs & Ed & <- & Eg & Ig & Eh & <- & Es & <-).
  apply in_group_true. unfold joined_entry, dict_get_default. simpl.
  now rewrite Ed, Eh, Es.
Qed.

Lemma complete_payload_id data :
  complete data -> exists i, payload_id data = Some i.
Proof.
  intros C. destruct (complete_get data "id" C) as [v E]; [ simpl; tauto | ].
  unfold payload_id. rewrite E. simpl. eauto.
Qed.
End JoinFacts.




Section JoinSequences.
Context `{PyBuiltins}.
Variables (d : string) (g : Z) (h s : string).

Lemma joined_entries_positions idx reqs :
  map position (joined_entries g idx reqs) = zseq idx (List.length reqs).
Proof.
  revert idx. induction reqs as [ | [data now] reqs IH ]; intros idx; simpl;
    auto.
  now rewrite IH.
Qed.

(** Joins with new ids into one group, started at a group of [k] rows. *)
Lemma run_joins_from reqs : forall st k,
  unique_ids st ->
  List.length (filter (in_group d g h s) st) = k ->
  Forall (fun r => complete (fst r) /\ payload_group (fst r) d g h s) reqs ->
  NoDup (map (fun r => payload_id (fst r)) reqs) ->
  (forall r x, In r reqs -> In x st -> in_group d g h s x = true ->
               payload_id (fst r) <> Some (id x)) ->
  let created := joined_entries g (Z.of_nat k + 1) reqs in
  snd (run_joins reqs st) = map created_response created /\
  Forall (fun e => query_get (id e) (fst (run_joins reqs st)) = Some e)
    created /\
  List.length (filter (in_group d g h s) (fst (run_joins reqs st)))
  = (k + List.length reqs)%nat /\
  (forall j, (forall r, In r reqs -> payload_id (fst r) <> Some j) ->
             query_get j (fst (run_joins reqs st)) = query_get j st).
Proof.
  induction reqs as [ | [data now] reqs IH ]; intros st k U L V ND Fresh.
  - simpl. repeat split; auto. lia.
  - inversion_clear V as [ | ? ? [C PG] V' ]. simpl in C, PG.
    simpl in ND. inversion_clear ND as [ | ? ? Nd ND' ].
    destruct (complete_payload_id data C) as [i Pid].
    pose proof (joined_entry_id data now g (Z.of_nat k + 1) i Pid) as Eid.
    pose proof (joined_entry_in_group data now (Z.of_nat k + 1) d g h s PG)
      as Ge.
    pose proof (join_queue_complete data now st d g h s C PG) as J.
    unfold _next_position in J. rewrite L in J.
    cbn [joined_entries run_joins map fst snd]. rewrite J. clear J.
    remember (joined_entry data now g (Z.of_nat k + 1)) as e1 eqn:He1.
    clear He1.
    assert (List.length (filter (in_group d g h s) (merge e1 st)) = S k) as L1.
    { rewrite merge_group_grows; auto.
      intros y Iy Ey.
      destruct (in_group d g h s y) eqn:Gy; auto.
      exfalso. apply (Fresh (data, now) y); simpl; auto. congruence. }
    assert (forall r, In r reqs -> payload_id (fst r) <> Some (id e1)) as Ne1.
    { intros r Ir E. apply Nd. rewrite Pid, <- Eid, <- E.
      now apply (in_map (fun r => payload_id (fst r))). }
    assert (forall r y, In r reqs -> In y (merge e1 st) ->
                        in_group d g h s y = true ->
                        payload_id (fst r) <> Some (id y)) as Fresh1.
    { intros r y Ir Iy Gy. apply merge_In in Iy as [-> | [Iy _]]; auto.
      apply Fresh; simpl; auto. }
    specialize (IH (merge e1 st) (S k) (merge_unique _ _ U) L1 V' ND' Fresh1).
    replace (Z.of_nat (S k) + 1) with (Z.of_nat k + 1 + 1) in IH by lia.
    destruct IH as (R & Q & Len & Frame).
    destruct (run_joins reqs (merge e1 st)) as [st'' rs] eqn:RJ.
    cbn [fst snd] in *. repeat split.
    + now rewrite R.
    + constructor; auto.
      rewrite Frame by assumption. apply merge_query_get_same.
    + rewrite Len. cbn [List.length]. lia.
    + intros j Nj. rewrite Frame by (intros; apply Nj; simpl; auto).
      apply merge_query_get_other. intros ->.
      apply (Nj (data, now)); [ simpl; auto | ]. simpl. congruence.
Qed.
End JoinSequences.

(** C3: N joins with pairwise distinct ids whose payloads address one
    (queueDate, guests, hall, segment) group that is empty at the start are
    each answered 201 with the serialized row they create; the rows get
    positions 1..N in join order, are what the table holds under their ids
    at the end, and the group then has N rows. *)
Theorem joins_take_positions_in_order `{PyBuiltins} st d g h s reqs :
  unique_ids st ->
  filter (in_group d g h s) st = [] ->
  Forall (fun r => complete (fst r) /\ payload_group (fst r) d g h s) reqs ->
  NoDup (map (fun r => payload_id (fst r)) reqs) ->
  let created := joined_entries g 1 reqs in
  map position created = zseq 1 (List.length reqs) /\
  snd (run_joins reqs st)
  = map (fun e => inr (json_response (serialize_entry e) 201)) created /\
  Forall (fun e => query_get (id e) (fst (run_joins reqs st)) = Some e)
    created /\
  List.length (filter (in_group d g h s) (fst (run_joins reqs st)))
  = List.length reqs.
Proof.
  intros U E V ND. split; [ apply joined_entries_positions | ].
  destruct (run_joins_from d g h s reqs st 0 U) as (R & Q & L & _); auto.
  - now rewrite E.
  - intros r x _ Ix Gx. exfalso.
    assert (In x (filter (in_group d g h s) st)) as I
      by (apply filter_In; auto).
    rewrite E in I. destruct I.
Qed.

Lemma joins_take_positions_in_order_witness :
  let reqs := [ (sample_payload "w1" 4, sample_time 11);
                (sample_payload "w2" 4, sample_time 12);
                (sample_payload "q1" 4, sample_time 13) ] in
  map id (joined_entries 4 1 reqs) = ["w1"; "w2"; "q1"]%string /\
  map position (joined_entries 4 1 reqs) = [1; 2; 3] /\
  snd (run_joins reqs sample_store)
  = map (fun e => inr (json_response (serialize_entry e) 201))
      (joined_entries 4 1 reqs).
Proof.
  intros reqs.
  destruct (joins_take_positions_in_order sample_store
              "2024-05-17" 4 "AC Hall" "front" reqs sample_store_unique)
    as (P & R & _).
  - reflexivity.
  - repeat constructor;
      exists (JStr "2024-05-17"), (JInt 4), (JStr "AC Hall"), (JStr "front");
      repeat split.
  - vm_compute. repeat constructor; simpl; intuition discriminate.
  - split; [ reflexivity | ]. split; [ exact P | exact R ].
Defined.

(* ===================================================================== *)
(** * The estimate along runs *)
(* ===================================================================== *)

Section WaitFacts.
Context `{PyBuiltins}.

Lemma wait_override_none data :
  isinstance_int_float (dict_get "estimatedWaitMinutes" data) = false ->
  wait_override data = inr None.
Proof. unfold wait_override. now intros ->. Qed.

Lemma patched_wait data e :
  wait_matches_position e -> wait_matches_position (patched data None e).
Proof.
  unfold patched.
  now destruct (dict_get "notifiedAt5Min" data) as [ [ | b | | | | | ] | ].
Qed.

Lemma resequence_rows_wait rows : forall idx st,
  Forall wait_matches_position st ->
  Forall wait_matches_position (resequence_rows idx rows st).
Proof.
  induction rows as [ | r rows IH ]; intros idx st W; simpl; auto.
  apply IH. unfold update_row. apply Forall_map.
  eapply Forall_impl; [ | exact W ]. intros e We.
  destruct (String.eqb (id e) (id r)); [ reflexivity | assumption ].
Qed.

Lemma step_wait r st :
  overrides_wait r = false ->
  Forall wait_matches_position st ->
  Forall wait_matches_position (step r st).
Proof.
  intros O W. unfold step.
  destruct (handle r st) as [ex | [st' resp]] eqn:Hd; auto.
  destruct r as [data now | entry_id | entry_id data]; simpl in Hd.
  - apply join_queue_inv in Hd as [-> | (d & g & h & s & _ & _ & ->)]; auto.
    apply Forall_forall. intros x Ix.
    apply merge_In in Ix as [-> | [Ix _]]; [ reflexivity | ].
    rewrite Forall_forall in W. auto.
  - destruct (query_get entry_id st) as [e | ] eqn:G.
    + rewrite (cancel_queue_found _ _ _ G) in Hd. injection Hd as <- _.
      apply resequence_rows_wait.
      unfold delete. apply Forall_forall. intros x Ix.
      apply filter_In in Ix as [Ix _]. rewrite Forall_forall in W. auto.
    + rewrite (cancel_queue_absent _ _ G) in Hd. now injection Hd as <- _.
  - destruct (query_get entry_id st) as [e | ] eqn:G.
    + rewrite (update_queue_entry_found _ data _ _ None G
                 (wait_override_none data O)) in Hd.
      injection Hd as <- _.
      apply query_get_Some in G as [Ie _].
      unfold update_row. apply Forall_map.
      apply Forall_forall. intros x Ix. rewrite Forall_forall in W.
      destruct (String.eqb (id x) entry_id); auto.
      apply patched_wait; auto.
    + rewrite (update_queue_entry_absent _ data _ G) in Hd.
      now injection Hd as <- _.
Qed.

End WaitFacts.

(** C2, as the code has it: in every table reached from the empty one by
    joins, cancellations and patches that carry no int or float
    estimatedWaitMinutes, each row's estimated wait is its position times 60
    (as a float). *)
Theorem wait_is_position_times_60 `{PyBuiltins} rs :
  Forall (fun r => overrides_wait r = false) rs ->
  Forall wait_matches_position (run rs []).
Proof.
  intros O.
  assert (Forall wait_matches_position []) as W by constructor.
  revert W. generalize (@nil QueueEntry) as st.
  induction rs as [ | r rs IH ]; intros st W; simpl; auto.
  inversion_clear O as [ | r' rs' Or O' ].
  apply IH; auto. now apply step_wait.
Qed.

Lemma wait_is_position_times_60_witness :
  Forall wait_matches_position
    (run [ Join (sample_payload "q1" 2) (sample_time 1);
           Join (sample_payload "q2" 2) (sample_time 2);
           Patch "q2" [("notifiedAt5Min"%string, JBool true)];
           Cancel "q1" ] []).
Proof.
  apply (wait_is_position_times_60
           [ Join (sample_payload "q1" 2) (sample_time 1);
             Join (sample_payload "q2" 2) (sample_time 2);
             Patch "q2" [("notifiedAt5Min"%string, JBool true)];
             Cancel "q1" ]).
  repeat constructor.
Defined.

(** C2 as stated fails: a patch with a numeric estimatedWaitMinutes leaves
    the row with position 1 and an estimate of 5 minutes. *)
Lemma wait_is_position_times_60_counterexample :
  run [ Join (sample_payload "q1" 2) (sample_time 1);
        Patch "q1" [("estimatedWaitMinutes"%string, JInt 5)] ] []
  = [ set_estimated_wait_minutes (binary64_of_int 5)
        (joined_entry (sample_payload "q1" 2) (sample_time 1) 2 1) ] /\
  ~ Forall wait_matches_position
      (run [ Join (sample_payload "q1" 2) (sample_time 1);
             Patch "q1" [("estimatedWaitMinutes"%string, JInt 5)] ] []).
Proof.
  split; [ reflexivity | ].
  intros W. inversion_clear W as [ | ? ? We _ ].
  vm_compute in We. discriminate.
Qed.

(* ===================================================================== *)
(** * Contiguous positions along runs *)
(* ===================================================================== *)

Lemma StronglySorted_filter {A} (R : A -> A -> Prop) (P : A -> bool) l :
  StronglySorted R l -> StronglySorted R (filter P l).
Proof.
  induction 1 as [ | x l S IH F ]; simpl; [ constructor | ].
  destruct (P x); auto. constructor; auto.
  apply Forall_forall. intros y Iy. apply filter_In in Iy as [Iy _].
  rewrite Forall_forall in F. auto.
Qed.

Lemma StronglySorted_snoc {A} (R : A -> A -> Prop) l x :
  StronglySorted R l -> Forall (fun y => R y x) l ->
  StronglySorted R (l ++ [x]).
Proof.
  induction 1 as [ | y l S IH F ]; intros B; simpl.
  - repeat constructor.
  - inversion_clear B as [ | ? ? Ry B' ]. constructor; auto.
    apply Forall_app. split; auto.
Qed.

Lemma time_ordered_map (f : QueueEntry -> QueueEntry) st :
  (forall x, joined_at (f x) = joined_at x) ->
  time_ordered st -> time_ordered (map f st).
Proof.
  intros J. unfold time_ordered.
  induction 1 as [ | x l S IH F ]; simpl; constructor; auto.
  apply Forall_map. eapply Forall_impl; [ | exact F ].
  intros y. now rewrite !J.
Qed.

(** In a table in join order a group is already sorted. *)
Lemma time_ordered_group_rows d g h s st :
  time_ordered st -> group_rows d g h s st = filter (in_group d g h s) st.
Proof.
  intros T. unfold group_rows. apply order_by_sorted_id.
  apply StronglySorted_filter.
  eapply StronglySorted_impl; [ | exact T ].
  intros a b L. unfold cmp_le, cmp_on. rewrite L. discriminate.
Qed.

Lemma table_inv_contiguous st : table_inv st -> positions_contiguous st.
Proof.
  intros (_ & T & P) d g h s. unfold contiguous.
  rewrite time_ordered_group_rows by assumption. apply P.
Qed.

Lemma update_row_unique i f e st :
  unique_ids st -> query_get i st = Some e ->
  update_row i (fun _ => f e) st = update_row i f st.
Proof.
  intros U G. unfold update_row. apply map_ext_in. intros x Ix.
  destruct (String.eqb_spec (id x) i) as [E | ]; auto.
  destruct (query_get_Some _ _ _ G) as [Ie Ee].
  assert (x = e) as -> by (eapply unique_ids_inj; eauto; congruence).
  reflexivity.
Qed.

Section InvariantFacts.
Context `{PyBuiltins}.

Lemma patched_id data w e : id (patched data w e) = id e.
Proof.
  unfold patched.
  destruct (dict_get "notifiedAt5Min" data) as [ [ | b | | | | | ] | ];
    now destruct w.
Qed.

Lemma patched_joined_at data w e : joined_at (patched data w e) = joined_at e.
Proof.
  unfold patched.
  destruct (dict_get "notifiedAt5Min" data) as [ [ | b | | | | | ] | ];
    now destruct w.
Qed.

Lemma patched_position data w e : position (patched data w e) = position e.
Proof.
  unfold patched.
  destruct (dict_get "notifiedAt5Min" data) as [ [ | b | | | | | ] | ];
    now destruct w.
Qed.

Lemma patched_in_group data w d g h s e :
  in_group d g h s (patched data w e) = in_group d g h s e.
Proof.
  unfold patched.
  destruct (dict_get "notifiedAt5Min" data) as [ [ | b | | | | | ] | ];
    now destruct w.
Qed.

(** A pass over the table that keeps key, join time, position and group of
    every row keeps the invariant. *)
Lemma table_inv_map (f : QueueEntry -> QueueEntry) st :
  (forall x, id (f x) = id x) ->
  (forall x, joined_at (f x) = joined_at x) ->
  (forall x, position (f x) = position x) ->
  (forall d g h s x, in_group d g h s (f x) = in_group d g h s x) ->
  table_inv st -> table_inv (map f st).
Proof.
  intros Fi Fj Fp Fg (U & T & P). split; [ | split ].
  - now apply unique_ids_map.
  - now apply time_ordered_map.
  - intros d g h s.
    rewrite filter_map_comm by (intros; apply Fg).
    rewrite map_map, length_map, (map_ext _ position Fp). apply P.
Qed.

Lemma join_preserves_inv data now st st' r :
  table_inv st ->
  admissible st (Join data now) ->
  join_queue data now st = inr (st', r) ->
  table_inv st'.
Proof.
  intros (U & T & P) [Fresh Later] J.
  apply join_queue_inv in J as [-> | (d & g & h & s & C & PG & ->)];
    [ now repeat split | ].
  destruct (complete_payload_id data C) as [i Pid].
  pose proof (joined_entry_id data now g (_next_position d g h s st) i Pid)
    as Eid.
  pose proof (joined_entry_in_group data now (_next_position d g h s st)
                d g h s PG) as Ge.
  assert (position (joined_entry data now g (_next_position d g h s st))
          = _next_position d g h s st) as Ep by reflexivity.
  assert (joined_at (joined_entry data now g (_next_position d g h s st))
          = now) as Et by reflexivity.
  remember (joined_entry data now g (_next_position d g h s st)) as e eqn:He.
  clear He.
  assert (query_get (id e) st = None) as G by (rewrite Eid; auto).
  split; [ now apply merge_unique | ].
  rewrite (merge_fresh _ _ G). split.
  - apply StronglySorted_snoc; auto. now rewrite Et.
  - intros d' g' h' s'. rewrite filter_app. simpl.
    destruct (in_group d' g' h' s' e) eqn:Ge'.
    + apply in_group_true in Ge as (<- & <- & <- & <-).
      apply in_group_true in Ge' as (<- & <- & <- & <-).
      rewrite map_app, length_app, P. simpl.
      rewrite Nat.add_1_r, zseq_snoc. f_equal.
      rewrite Ep. unfold _next_position. f_equal. lia.
    + rewrite app_nil_r. apply P.
Qed.

Lemma cancel_preserves_inv entry_id st st' r :
  table_inv st ->
  cancel_queue entry_id st = inr (st', r) ->
  table_inv st'.
Proof.
  intros (U & T & P) Cq.
  destruct (query_get entry_id st) as [e | ] eqn:G.
  2: { rewrite (cancel_queue_absent _ _ G) in Cq. injection Cq as <- _.
       now repeat split. }
  rewrite (cancel_queue_found _ _ _ G) in Cq. injection Cq as <- _.
  destruct (query_get_Some _ _ _ G) as [Ie _].
  assert (unique_ids (delete e st)) as U1 by now apply unique_ids_filter.
  assert (time_ordered (delete e st)) as T1
    by now apply StronglySorted_filter.
  assert (time_ordered (_resequence (queue_date e) (guests e) (hall e)
                          (segment e) (delete e st))) as T2.
  { rewrite _resequence_map by assumption.
    apply time_ordered_map; auto. intros; apply renum_joined_at. }
  split; [ | split; [ exact T2 | ] ].
  - unfold unique_ids. now rewrite _resequence_ids.
  - intros d g h s.
    destruct (in_group d g h s e) eqn:Ge.
    + apply in_group_true in Ge as (<- & <- & <- & <-).
      pose proof (_resequence_group (queue_date e) (guests e) (hall e)
                    (segment e) (delete e st) U1) as R.
      rewrite (time_ordered_group_rows _ _ _ _ _ T2) in R.
      rewrite R, renumber_positions. f_equal.
      rewrite <- (length_map position (renumber _ _)), renumber_positions.
      now rewrite zseq_length.
    + rewrite _resequence_filter_other; auto.
      * rewrite delete_outside; auto.
      * intros x Gx. destruct (group_of e x) eqn:Gex; auto.
        apply in_group_true in Gx as (<- & <- & <- & <-).
        apply in_group_true in Gex as (Eq1 & Eq2 & Eq3 & Eq4).
        rewrite Eq1, Eq2, Eq3, Eq4 in Ge.
        now rewrite (proj2 (in_group_true _ _ _ _ e)) in Ge.
      * intros. apply renum_in_group.
Qed.

Lemma patch_preserves_inv entry_id data st st' r :
  table_inv st ->
  update_queue_entry entry_id data st = inr (st', r) ->
  table_inv st'.
Proof.
  intros I Up.
  destruct (query_get entry_id st) as [e | ] eqn:G.
  2: { rewrite (update_queue_entry_absent _ data _ G) in Up.
       now injection Up as <- _. }
  destruct (update_queue_entry_inv _ _ _ _ _ _ G Up) as (w & _ & -> & _).
  rewrite (update_row_unique entry_id (patched data w) e st (proj1 I) G).
  unfold update_row. apply table_inv_map; auto; intros.
  - destruct (String.eqb (id x) entry_id); auto using patched_id.
  - destruct (String.eqb (id x) entry_id); auto using patched_joined_at.
  - destruct (String.eqb (id x) entry_id); auto using patched_position.
  - destruct (String.eqb (id x) entry_id); auto using patched_in_group.
Qed.

Lemma step_preserves_inv r st :
  table_inv st -> admissible st r -> table_inv (step r st).
Proof.
  intros I A. unfold step.
  destruct (handle r st) as [ex | [st' resp]] eqn:Hd; auto.
  destruct r as [data now | entry_id | entry_id data]; simpl in Hd.
  - eapply join_preserves_inv; eauto.
  - eapply cancel_preserves_inv; eauto.
  - eapply patch_preserves_inv; eauto.
Qed.

End InvariantFacts.

(** C1, as the code has it: in every table reached from the empty one by
    joins whose id is not yet stored and whose timestamp is later than every
    stored one, by cancellations and by patches, the positions of each
    (queueDate, guests, hall, segment) group, read in ascending join time,
    are 1..N. *)
Theorem reachable_positions_contiguous `{PyBuiltins} st :
  reachable st -> positions_contiguous st.
Proof.
  intros R. apply table_inv_contiguous.
  induction R as [ | st r R IH A ].
  - repeat split; try constructor.
  - now apply step_preserves_inv.
Qed.

Lemma reachable_positions_contiguous_witness :
  positions_contiguous
    (step (Cancel "q1")
       (step (Join (sample_payload "q2" 2) (sample_time 2))
          (step (Join (sample_payload "q1" 2) (sample_time 1)) []))).
Proof.
  apply reachable_positions_contiguous.
  apply reachable_step; [ | exact I ].
  apply reachable_step;
    [ | split;
        [ intros i E; injection E as <-; reflexivity
        | repeat constructor ] ].
  apply reachable_step;
    [ | split;
        [ intros i E; injection E as <-; reflexivity
        | repeat constructor ] ].
  apply reachable_empty.
Defined.

(** The clock matters as well: when the second join carries the earlier
    timestamp, the positions read in ascending join time are 2, 1. *)
Lemma positions_follow_arrival_not_clock :
  map position
    (group_rows "2024-05-17" 2 "AC Hall" "front"
       (run [ Join (sample_payload "q1" 2) (sample_time 2);
              Join (sample_payload "q2" 2) (sample_time 1) ] [])) = [2; 1].
Proof. reflexivity. Qed.

(** C1 as stated fails: joining the same id twice leaves a group of one row
    whose position is 2. *)
Lemma positions_contiguous_counterexample :
  map position
    (run [ Join (sample_payload "q1" 2) (sample_time 1);
           Join (sample_payload "q1" 2) (sample_time 2) ] []) = [2] /\
  ~ positions_contiguous
      (run [ Join (sample_payload "q1" 2) (sample_time 1);
             Join (sample_payload "q1" 2) (sample_time 2) ] []).
Proof.
  split; [ reflexivity | ].
  intros C. specialize (C "2024-05-17"%string 2 "AC Hall"%string "front"%string).
  vm_compute in C. discriminate.
Qed.

(* ===================================================================== *)
(** * Document-store accessors *)
(* ===================================================================== *)

Module MongoFacts.
Import Mongo.

Section Accessors.
Variables (world client database : Type).
Variables (MONGO_URI MONGO_DB_NAME : string).
Variable MongoClient : string -> world -> (string + client) * world.
Variable client_get_database :
  client -> option string -> world -> (string + database) * world.
Variable driver_create_index :
  collection database -> string -> bool -> world -> (string + unit) * world.

Local Abbreviation state := (Mongo.state world client).
Local Abbreviation mongo := (Mongo.mongo world client).
Local Abbreviation get_db :=
  (Mongo.get_db world client database MONGO_URI MONGO_DB_NAME MongoClient
     client_get_database).
Local Abbreviation create_index :=
  (Mongo.create_index world client database driver_create_index).
Local Abbreviation create_indexes :=
  (Mongo.create_indexes world client database driver_create_index).
Local Abbreviation accessor :=
  (Mongo.accessor world client database MONGO_URI MONGO_DB_NAME MongoClient
     client_get_database driver_create_index).
Local Abbreviation accessors :=
  (Mongo.accessors world client database MONGO_URI MONGO_DB_NAME MongoClient
     client_get_database driver_create_index).

Lemma create_index_run c k u (s : state) :
  calls _ _ (snd (create_index c k u s))
  = calls _ _ s ++ [CreateIndex (coll_name _ c) k u] /\
  _client _ _ (snd (create_index c k u s)) = _client _ _ s.
Proof.
  unfold Mongo.create_index, lift. simpl.
  destruct (driver_create_index c k u (the_world _ _ s)). simpl. auto.
Qed.

(** A non-empty list of indexes: the first is always asked for, the
    following ones until one raises. *)
Lemma create_indexes_run c specs : forall s : state,
  specs <> [] ->
  exists attempted rest,
    specs = attempted ++ rest /\ attempted <> [] /\
    calls _ _ (snd (create_indexes c specs s))
    = calls _ _ s ++ map (index_call (coll_name _ c)) attempted /\
    _client _ _ (snd (create_indexes c specs s)) = _client _ _ s.
Proof.
  induction specs as [ | [k u] rest IH ]; intros s NE; [ congruence | ].
  destruct (create_index_run c k u s) as [Cs Cl].
  destruct rest as [ | p rest ].
  - exists [(k, u)], []. simpl. repeat split; auto; discriminate.
  - change (create_indexes c ((k, u) :: p :: rest))
      with (bind world client (create_index c k u)
              (fun _ => create_indexes c (p :: rest))).
    unfold bind.
    destruct (create_index c k u s) as [[e | []] s1] eqn:R; simpl in Cs, Cl.
    + exists [(k, u)], (p :: rest). simpl. repeat split; auto; discriminate.
    + destruct (IH s1) as (att & rst & E & _ & Cs1 & Cl1); [ discriminate | ].
      exists ((k, u) :: att), rst. cbv beta iota. repeat split.
      * simpl. now rewrite E.
      * discriminate.
      * rewrite Cs1, Cs, <- app_assoc. reflexivity.
      * congruence.
Qed.

Lemma accessor_run n specs (s : state) :
  specs <> [] ->
  match get_db s with
  | (inl e, s1) => accessor n specs s = (inl e, s1)
  | (inr db, s1) =>
      exists s2 attempted rest,
        accessor n specs s = (inr (get_collection database db n), s2) /\
        specs = attempted ++ rest /\ attempted <> [] /\
        calls _ _ s2 = calls _ _ s1 ++ map (index_call n) attempted
  end.
Proof.
  intros NE.
  destruct (get_db s) as [[e | db] s1] eqn:G;
    unfold Mongo.accessor; unfold bind at 1; rewrite G; [ reflexivity | ].
  destruct (create_indexes_run (get_collection database db n) specs s1 NE)
    as (att & rst & E & NA & Cs & _).
  unfold bind, try_pass, ret.
  destruct (create_indexes (get_collection database db n) specs s1)
    as [[e | []] s2]; simpl in Cs; eauto 10.
Qed.

(** C9: each of the six accessors, whatever the driver does on
    [create_index], returns the collection handle as soon as [get_db] gave
    a database: an exception of an index creation never leaves the
    accessor.  Every access asks the driver again for the accessor's first
    index at least (nothing remembers an earlier access); the following
    indexes of the list are asked for until one raises. *)
Theorem accessors_swallow_index_errors :
  Forall (fun a : mongo (collection database) * string * list (string * bool) =>
            let '(acc, n, specs) := a in
            forall s : state,
              match get_db s with
              | (inl e, s1) => acc s = (inl e, s1)
              | (inr db, s1) =>
                  exists s2 attempted rest,
                    acc s = (inr (get_collection database db n), s2) /\
                    specs = attempted ++ rest /\ attempted <> [] /\
                    calls _ _ s2
                    = calls _ _ s1 ++ map (index_call n) attempted
              end)
    accessors.
Proof.
  unfold Mongo.accessors.
  repeat constructor; intros s;
    match goal with
    | |- context [ inr (get_collection _ _ ?n) ] =>
        match goal with
        | |- context [ ?l = _ ++ _ ] =>
            apply (accessor_run n l s); discriminate
        end
    end.
Qed.
End Accessors.

End MongoFacts.

(* ===================================================================== *)
(** * Further facts about the queue handlers *)
(* ===================================================================== *)

Lemma zseq_In z start n :
  In z (zseq start n) <-> start <= z < start + Z.of_nat n.
Proof.
  revert start. induction n as [ | n IH ]; intros start.
  - simpl. lia.
  - change (zseq start (S n)) with (start :: zseq (start + 1) n).
    simpl In. rewrite IH. lia.
Qed.

Lemma zseq_NoDup start n : NoDup (zseq start n).
Proof.
  revert start. induction n as [ | n IH ]; intros start; simpl; constructor; auto.
  rewrite zseq_In. lia.
Qed.

Lemma NoDup_map_In_inj {A B} (f : A -> B) l a b :
  NoDup (map f l) -> In a l -> In b l -> f a = f b -> a = b.
Proof.
  induction l as [ | x l IH ]; simpl; [ tauto | ].
  intros N Ia Ib E. inversion_clear N as [ | ? ? Nx N' ].
  destruct Ia as [-> | Ia], Ib as [-> | Ib]; auto.
  - exfalso. apply Nx. rewrite E. now apply in_map.
  - exfalso. apply Nx. rewrite <- E. now apply in_map.
Qed.

Section MoreQueueFacts.
Context `{PyBuiltins}.

Lemma reachable_table_inv st : reachable st -> table_inv st.
Proof.
  induction 1 as [ | st r R IH A ].
  - repeat split; try constructor.
  - now apply step_preserves_inv.
Qed.

Lemma update_row_ids i (f : QueueEntry -> QueueEntry) st :
  (forall e, id (f e) = id e) -> map id (update_row i f st) = map id st.
Proof.
  intros F. unfold update_row. rewrite map_map. apply map_ext. intros e.
  now destruct (String.eqb (id e) i).
Qed.

(** The loop of [_resequence] keeps the keys of the table, whatever rows it
    is given. *)
Lemma resequence_rows_ids rows : forall idx st,
  map id (resequence_rows idx rows st) = map id st.
Proof.
  induction rows as [ | r rows IH ]; intros idx st; simpl; auto.
  rewrite IH. now apply update_row_ids.
Qed.

Lemma update_row_const_ids i p st :
  id p = i -> map id (update_row i (fun _ => p) st) = map id st.
Proof.
  intros E. unfold update_row. rewrite map_map. apply map_ext. intros e.
  destruct (String.eqb_spec (id e) i); congruence.
Qed.

Lemma update_row_const_get i p st e :
  id p = i -> query_get i st = Some e ->
  query_get i (update_row i (fun _ => p) st) = Some p.
Proof.
  intros E. unfold query_get, update_row.
  induction st as [ | x st IH ]; simpl; [ discriminate | ].
  destruct (String.eqb_spec (id x) i) as [Ex | Nx]; simpl.
  - intros _. now rewrite E, String.eqb_refl.
  - apply String.eqb_neq in Nx. rewrite Nx. exact IH.
Qed.

Lemma update_row_const_twice i p st :
  id p = i ->
  update_row i (fun _ => p) (update_row i (fun _ => p) st)
  = update_row i (fun _ => p) st.
Proof.
  intros E. unfold update_row. rewrite map_map. apply map_ext. intros e.
  destruct (String.eqb_spec (id e) i) as [Ee | Ne].
  - now rewrite E, String.eqb_refl.
  - apply String.eqb_neq in Ne. now rewrite Ne.
Qed.

Lemma patched_idem data w e :
  patched data w (patched data w e) = patched data w e.
Proof.
  unfold patched.
  destruct (dict_get "notifiedAt5Min" data) as [ [ | b | | | | | ] | ];
    now destruct w.
Qed.

Lemma step_unique r st : unique_ids st -> unique_ids (step r st).
Proof.
  intros U. unfold step.
  destruct (handle r st) as [ex | [st' resp]] eqn:Hd; auto.
  destruct r as [data now | entry_id | entry_id data]; simpl in Hd.
  - apply join_queue_inv in Hd as [-> | (d & g & h & s & _ & _ & ->)]; auto.
    now apply merge_unique.
  - destruct (query_get entry_id st) as [e | ] eqn:G.
    + rewrite (cancel_queue_found _ _ _ G) in Hd. injection Hd as <- _.
      unfold unique_ids, _resequence. rewrite resequence_rows_ids.
      now apply unique_ids_filter.
    + rewrite (cancel_queue_absent _ _ G) in Hd. now injection Hd as <- _.
  - destruct (query_get entry_id st) as [e | ] eqn:G.
    + destruct (update_queue_entry_inv _ _ _ _ _ _ G Hd) as (w & _ & -> & _).
      unfold unique_ids.
      rewrite update_row_const_ids; auto.
      rewrite patched_id. now apply query_get_Some in G.
    + rewrite (update_queue_entry_absent _ data _ G) in Hd.
      now injection Hd as <- _.
Qed.

(** In a group whose positions are 1..N in the order of [rows], each row
    stands at its own position. *)
Lemma rank_from_position rows : forall idx y,
  NoDup (map id rows) ->
  map position rows = zseq idx (List.length rows) ->
  In y rows ->
  rank_from idx (id y) rows = Some (position y).
Proof.
  induction rows as [ | r rows IH ]; intros idx y N P Iy; [ destruct Iy | ].
  simpl in N, P. inversion_clear N as [ | ? ? Nr N' ].
  injection P as Pr P'. simpl.
  destruct Iy as [-> | Iy].
  - rewrite String.eqb_refl. congruence.
  - destruct (String.eqb_spec (id r) (id y)) as [E | _].
    + exfalso. apply Nr. rewrite E. now apply in_map.
    + now apply IH.
Qed.

Lemma set_position_self y :
  wait_matches_position y ->
  set_position (position y) (float_of_int (position y * 60)) y = y.
Proof.
  unfold wait_matches_position. intros <-. now destruct y.
Qed.

(** Renumbering a group that is numbered 1..N in join order and whose
    estimates follow the positions changes nothing. *)
Lemma _resequence_fixpoint d g h s st :
  unique_ids st -> contiguous d g h s st ->
  Forall wait_matches_position (filter (in_group d g h s) st) ->
  _resequence d g h s st = st.
Proof.
  intros U C W. rewrite _resequence_map by assumption.
  transitivity (map (fun x : QueueEntry => x) st); [ | apply map_id ].
  apply map_ext_in. intros y Iy.
  destruct (in_group d g h s y) eqn:Gy.
  - unfold renum. rewrite (rank_from_position _ 1 y).
    + apply set_position_self. rewrite Forall_forall in W. apply W.
      apply filter_In. auto.
    + now apply group_rows_unique.
    + unfold contiguous in C. rewrite C. f_equal.
      unfold group_rows. now rewrite order_by_length.
    + apply order_by_In, filter_In. auto.
  - now apply _resequence_outside.
Qed.

Lemma delete_appended e st :
  query_get (id e) st = None -> delete e (st ++ [e]) = st.
Proof.
  intros G. unfold delete. rewrite filter_app. simpl.
  rewrite String.eqb_refl. simpl. rewrite app_nil_r.
  apply forallb_filter_id, forallb_forall. intros x Ix.
  destruct (String.eqb_spec (id x) (id e)) as [E | ]; auto.
  apply query_get_None in G. exfalso. apply G. rewrite <- E. now apply in_map.
Qed.
End MoreQueueFacts.

(** X1: POST /queue/join ends in exactly one of three ways: 400 when a
    required field is missing, 201 when all are there and int(guests)
    succeeds, and an escaped exception (no response from the handler) when
    all are there and int(guests) raises.  No subscript of the payload ever
    raises KeyError: the check of the required fields covers them all. *)
Theorem join_queue_outcomes `{PyBuiltins} data now st :
  (status_of (join_queue data now st) = Some 400 <-> ~ complete data) /\
  (status_of (join_queue data now st) = Some 201 <->
   complete data /\
   exists v g, dict_get "guests" data = Some v /\ py_int v = Some g) /\
  (status_of (join_queue data now st) = None <->
   complete data /\
   exists v, dict_get "guests" data = Some v /\ py_int v = None) /\
  (forall k, join_queue data now st <> inl (KeyError k)).
Proof.
  destruct (first_missing required data) as [k | ] eqn:M.
  - assert (~ complete data) as NC
      by (intros C; apply first_missing_None in C; congruence).
    unfold join_queue. rewrite M. simpl.
    repeat split; try tauto; try discriminate; intros [C _]; tauto.
  - assert (complete data) as C by now apply first_missing_None.
    destruct (complete_get data "guests" C) as [vg Eg]; [ simpl; tauto | ].
    destruct (complete_get data "hall" C) as [vh Eh]; [ simpl; tauto | ].
    destruct (complete_get data "segment" C) as [vs Es]; [ simpl; tauto | ].
    destruct (complete_get data "queueDate" C) as [vd Ed]; [ simpl; tauto | ].
    destruct (py_int vg) as [g | ] eqn:Ig.
    + assert (payload_group data (py_str vd) g (py_str vh) (py_str vs)) as PG
        by (exists vd, vg, vh, vs; auto 10).
      rewrite (join_queue_complete _ now st _ _ _ _ C PG). simpl.
      repeat split; try tauto; try discriminate; eauto.
      intros (_ & v & Ev & Iv). congruence.
    + unfold join_queue, subscript, int_.
      rewrite M, Eg. simpl. rewrite Ig. simpl.
      repeat split; try tauto; try discriminate; eauto.
      intros (_ & v & g & Ev & Iv). congruence.
Qed.

(** X2: whatever requests are served, starting from the empty table, no
    two rows of the table share an id. *)
Theorem run_keeps_ids_unique `{PyBuiltins} rs : unique_ids (run rs []).
Proof.
  assert (unique_ids []) as U by constructor.
  revert U. generalize (@nil QueueEntry) as st.
  induction rs as [ | r rs IH ]; intros st U; simpl; auto.
  apply IH. now apply step_unique.
Qed.

Section JoinAnswer.
Context `{PyBuiltins}.

(** The two outcomes of a join that answers. *)
Lemma join_queue_201 data now st st' r :
  join_queue data now st = inr (st', r) ->
  status r = 201 ->
  exists d g h s,
    complete data /\ payload_group data d g h s /\
    st' = merge (joined_entry data now g (_next_position d g h s st)) st /\
    r = json_response
          (serialize_entry
             (joined_entry data now g (_next_position d g h s st))) 201.
Proof.
  intros J S201.
  destruct (first_missing required data) as [k | ] eqn:M.
  { unfold join_queue in J. rewrite M in J. injection J as <- <-.
    discriminate. }
  assert (complete data) as C by now apply first_missing_None.
  destruct (complete_get data "guests" C) as [vg Eg]; [ simpl; tauto | ].
  destruct (complete_get data "hall" C) as [vh Eh]; [ simpl; tauto | ].
  destruct (complete_get data "segment" C) as [vs Es]; [ simpl; tauto | ].
  destruct (complete_get data "queueDate" C) as [vd Ed]; [ simpl; tauto | ].
  destruct (py_int vg) as [g | ] eqn:Ig.
  2: { unfold join_queue, subscript, int_ in J.
       rewrite M, Eg in J. simpl in J. rewrite Ig in J. discriminate. }
  assert (payload_group data (py_str vd) g (py_str vh) (py_str vs)) as PG
    by (exists vd, vg, vh, vs; auto 10).
  rewrite (join_queue_complete _ now st _ _ _ _ C PG) in J.
  injection J as <- <-.
  exists (py_str vd), g, (py_str vh), (py_str vs). auto.
Qed.

(** After a cancellation that answered, no row has the cancelled id. *)
Lemma cancel_queue_gone entry_id st st' r :
  cancel_queue entry_id st = inr (st', r) ->
  ~ In entry_id (map id st').
Proof.
  intros Cq.
  destruct (query_get entry_id st) as [e | ] eqn:G.
  - rewrite (cancel_queue_found _ _ _ G) in Cq. injection Cq as <- _.
    unfold _resequence. rewrite resequence_rows_ids, delete_ids.
    intros I. apply filter_In in I as [_ N].
    apply query_get_Some in G as [_ E]. rewrite E in N.
    now rewrite String.eqb_refl in N.
  - rewrite (cancel_queue_absent _ _ G) in Cq. injection Cq as <- _.
    now apply query_get_None.
Qed.

Lemma patched_sort_keys data w e :
  queue_date (patched data w e) = queue_date e /\
  hall (patched data w e) = hall e /\
  segment (patched data w e) = segment e /\
  position (patched data w e) = position e.
Proof.
  unfold patched.
  destruct (dict_get "notifiedAt5Min" data) as [ [ | b | | | | | ] | ];
    destruct w; auto.
Qed.

(** The rows [list_queue] shows. *)
Lemma list_queue_rows date st :
  exists rows,
    list_queue date st
    = json_response (JObj [("entries"%string, JArr (map serialize_entry rows))])
        200 /\
    rows = order_by list_order
             match date with
             | Some d0 =>
                 if String.eqb d0 EmptyString then st
                 else filter (fun e => String.eqb (queue_date e) d0) st
             | None => st
             end.
Proof. eexists. split; reflexivity. Qed.
End JoinAnswer.

(** X3: a join answered 201 leaves under the payload's id exactly the row
    its response serializes: joined at [now], at the position one past the
    size its own group had before, with the estimate of that position; no
    row with another id is touched. *)
Theorem join_queue_stores_response `{PyBuiltins} data now st st' r :
  join_queue data now st = inr (st', r) ->
  status r = 201 ->
  exists e,
    r = json_response (serialize_entry e) 201 /\
    payload_id data = Some (id e) /\
    query_get (id e) st' = Some e /\
    joined_at e = now /\
    position e = Z.of_nat (List.length (filter (group_of e) st)) + 1 /\
    wait_matches_position e /\
    forall j, j <> id e -> query_get j st' = query_get j st.
Proof.
  intros J S201.
  destruct (join_queue_201 _ _ _ _ _ J S201)
    as (d & g & h & s & C & PG & -> & ->).
  destruct (complete_payload_id data C) as [i Pid].
  pose proof (joined_entry_id data now g (_next_position d g h s st) i Pid)
    as Eid.
  pose proof (joined_entry_in_group data now (_next_position d g h s st)
                _ _ _ _ PG) as Ge.
  eexists. split; [ reflexivity | ].
  split; [ rewrite Eid; exact Pid | ].
  split; [ apply merge_query_get_same | ].
  split; [ reflexivity | ].
  split; [ | split; [ reflexivity | ] ].
  - unfold group_of.
    apply in_group_true in Ge as (E1 & E2 & E3 & E4).
    rewrite E1, E2, E3, E4. reflexivity.
  - intros j Nj. now apply merge_query_get_other.
Qed.

Lemma join_queue_stores_response_witness :
  exists e,
    payload_id (sample_payload "q4" 2) = Some (id e) /\
    query_get (id e)
      (step (Join (sample_payload "q4" 2) (sample_time 4)) sample_store)
    = Some e /\
    position e = 4.
Proof.
  assert (join_queue (sample_payload "q4" 2) (sample_time 4) sample_store
          = inr (step (Join (sample_payload "q4" 2) (sample_time 4))
                   sample_store,
                 json_response
                   (serialize_entry
                      (joined_entry (sample_payload "q4" 2) (sample_time 4)
                         2 4))
                   201)) as J by reflexivity.
  destruct (join_queue_stores_response _ _ _ _ _ J eq_refl)
    as (e & R & Pid & Q & _ & P & _).
  exists e. split; [ exact Pid | ]. split; [ exact Q | ].
  injection Pid as Eid. rewrite <- Eid in Q.
  vm_compute in Q. injection Q as <-. reflexivity.
Defined.

(** X4: after a cancellation every remaining row of the cancelled entry's
    group has an estimate of 60 minutes per position again, also where a
    patch had overridden it. *)
Theorem cancel_queue_resets_estimates `{PyBuiltins} entry_id st st' r e :
  unique_ids st ->
  query_get entry_id st = Some e ->
  cancel_queue entry_id st = inr (st', r) ->
  forall x, In x st' -> group_of e x = true -> wait_matches_position x.
Proof.
  intros U G Cq x Ix Gx.
  rewrite (cancel_queue_found _ _ _ G) in Cq. injection Cq as <- _.
  assert (unique_ids (delete e st)) as U1 by now apply unique_ids_filter.
  pose proof (_resequence_group (queue_date e) (guests e) (hall e) (segment e)
                (delete e st) U1) as R.
  assert (In x (group_rows (queue_date e) (guests e) (hall e) (segment e)
                  (_resequence (queue_date e) (guests e) (hall e) (segment e)
                     (delete e st)))) as Ig
    by (apply order_by_In, filter_In; auto).
  rewrite R in Ig.
  pose proof (renumber_wait 1
                (group_rows (queue_date e) (guests e) (hall e) (segment e)
                   (delete e st))) as W.
  rewrite Forall_forall in W. auto.
Qed.

Lemma cancel_queue_resets_estimates_witness :
  Forall wait_matches_position
    (step (Cancel "q1")
       (step (Patch "q3" [("estimatedWaitMinutes"%string, JInt 5)])
          sample_store)).
Proof.
  apply Forall_forall. intros x Ix.
  apply (cancel_queue_resets_estimates "q1"
           (step (Patch "q3" [("estimatedWaitMinutes"%string, JInt 5)])
              sample_store)
           (step (Cancel "q1")
              (step (Patch "q3" [("estimatedWaitMinutes"%string, JInt 5)])
                 sample_store))
           (json_response ok_body 200)
           (joined_entry (sample_payload "q1" 2) (sample_time 1) 2 1)).
  - unfold unique_ids. vm_compute.
    repeat constructor; simpl; intuition discriminate.
  - reflexivity.
  - reflexivity.
  - exact Ix.
  - vm_compute in Ix. destruct Ix as [<- | [<- | []]]; reflexivity.
Defined.

(** X5: joining with an id the table does not hold and cancelling that id
    again gives back the table as it was, when the payload's group was
    numbered 1..N in join order with estimates that follow the positions. *)
Theorem join_then_cancel_restores `{PyBuiltins} data now st d g h s i :
  unique_ids st ->
  contiguous d g h s st ->
  Forall wait_matches_position (filter (in_group d g h s) st) ->
  complete data ->
  payload_group data d g h s ->
  payload_id data = Some i ->
  query_get i st = None ->
  exists st1 e,
    join_queue data now st
    = inr (st1, json_response (serialize_entry e) 201) /\
    cancel_queue i st1 = inr (st, json_response ok_body 200).
Proof.
  intros U C W Cd PG Pid Fresh.
  pose proof (joined_entry_id data now g (_next_position d g h s st) i Pid)
    as Eid.
  pose proof (joined_entry_in_group data now (_next_position d g h s st)
                d g h s PG) as Ge.
  pose proof (join_queue_complete data now st d g h s Cd PG) as J.
  remember (joined_entry data now g (_next_position d g h s st)) as e eqn:He.
  clear He.
  assert (query_get (id e) st = None) as Fe by (rewrite Eid; exact Fresh).
  exists (merge e st), e. split; [ exact J | ].
  assert (query_get i (merge e st) = Some e) as Q
    by (rewrite <- Eid; apply merge_query_get_same).
  rewrite (cancel_queue_found _ _ _ Q).
  rewrite (merge_fresh _ _ Fe), (delete_appended _ _ Fe).
  apply in_group_true in Ge as (-> & -> & -> & ->).
  now rewrite _resequence_fixpoint.
Qed.

Lemma join_then_cancel_restores_witness :
  exists st1 e,
    join_queue (sample_payload "q4" 2) (sample_time 4) sample_store
    = inr (st1, json_response (serialize_entry e) 201) /\
    cancel_queue "q4" st1 = inr (sample_store, json_response ok_body 200).
Proof.
  apply (join_then_cancel_restores (sample_payload "q4" 2) (sample_time 4)
           sample_store "2024-05-17" 2 "AC Hall" "front" "q4"
           sample_store_unique).
  - reflexivity.
  - vm_compute. repeat constructor.
  - repeat constructor.
  - exists (JStr "2024-05-17"), (JInt 2), (JStr "AC Hall"), (JStr "front").
    repeat split.
  - reflexivity.
  - reflexivity.
Defined.

Section ListingFacts.

(** Rows of one date, hall and segment whose positions count up are in
    listing order. *)
Lemma counting_rows_listed rows : forall idx,
  (forall a b, In a rows -> In b rows ->
               queue_date a = queue_date b /\ hall a = hall b /\
               segment a = segment b) ->
  map position rows = zseq idx (List.length rows) ->
  StronglySorted (cmp_le list_order) rows.
Proof.
  induction rows as [ | r rows IH ]; intros idx Same P; [ constructor | ].
  simpl in P. injection P as Pr P'.
  constructor.
  - apply (IH (idx + 1)); auto.
    intros a b Ia Ib. apply Same; simpl; auto.
  - apply Forall_forall. intros y Iy.
    apply list_order_listed_before. unfold listed_before.
    destruct (Same r y) as (Ed & Eh & Es); simpl; auto.
    right. split; auto. right. split; auto. right. split; auto.
    assert (In (position y) (zseq (idx + 1) (List.length rows))) as Iz
      by (rewrite <- P'; now apply in_map).
    apply zseq_In in Iz. lia.
Qed.

Lemma in_group_same d g h s a b :
  in_group d g h s a = true -> in_group d g h s b = true ->
  queue_date a = queue_date b /\ hall a = hall b /\ segment a = segment b.
Proof.
  intros Ga Gb.
  apply in_group_true in Ga as (-> & _ & -> & ->).
  apply in_group_true in Gb as (-> & _ & -> & ->). auto.
Qed.
End ListingFacts.

(** X6: in a table reached by admissible requests, GET /queue, without a
    date or with the date of the group, shows the rows of each (queueDate,
    guests, hall, segment) group in join order, with positions 1..N. *)
Theorem list_queue_shows_groups_in_join_order `{PyBuiltins} st date d g h s :
  reachable st ->
  date = None \/ date = Some d ->
  exists rows,
    list_queue date st
    = json_response (JObj [("entries"%string, JArr (map serialize_entry rows))])
        200 /\
    filter (in_group d g h s) rows = group_rows d g h s st /\
    map position (filter (in_group d g h s) rows)
    = zseq 1 (List.length (filter (in_group d g h s) st)).
Proof.
  intros R D. apply reachable_table_inv in R. destruct R as (U & T & P).
  unfold list_queue.
  set (q := match date with
            | Some d0 => if String.eqb d0 EmptyString then st
                         else filter (fun e => String.eqb (queue_date e) d0) st
            | None => st
            end).
  assert (filter (in_group d g h s) q = filter (in_group d g h s) st) as Fq.
  { subst q. destruct D as [-> | ->]; auto.
    destruct (String.eqb d EmptyString); auto.
    rewrite filter_filter_comm.
    apply forallb_filter_id, forallb_forall. intros x Ix.
    apply filter_In in Ix as [_ Gx].
    apply in_group_true in Gx as (<- & _). apply String.eqb_refl. }
  assert (filter (in_group d g h s) (order_by list_order q)
          = filter (in_group d g h s) st) as E.
  { rewrite <- (order_by_filter list_order (in_group d g h s) q), Fq.
    apply order_by_sorted_id.
    apply (counting_rows_listed _ 1); [ | apply P ].
    intros a b Ia Ib.
    apply filter_In in Ia as [_ Ga]. apply filter_In in Ib as [_ Gb].
    eapply in_group_same; eauto. }
  exists (order_by list_order q). split; [ reflexivity | ].
  rewrite E. split; [ | apply P ].
  symmetry. now apply time_ordered_group_rows.
Qed.

Lemma list_queue_shows_groups_in_join_order_witness :
  exists rows,
    list_queue None
      (step (Join (sample_payload "q2" 2) (sample_time 2))
         (step (Join (sample_payload "q1" 2) (sample_time 1)) []))
    = json_response (JObj [("entries"%string, JArr (map serialize_entry rows))])
        200 /\
    map position (filter (in_group "2024-05-17" 2 "AC Hall" "front") rows)
    = [1; 2].
Proof.
  destruct (list_queue_shows_groups_in_join_order
              (step (Join (sample_payload "q2" 2) (sample_time 2))
                 (step (Join (sample_payload "q1" 2) (sample_time 1)) []))
              None "2024-05-17" 2 "AC Hall" "front")
    as (rows & L & _ & P).
  - apply reachable_step;
      [ | split;
          [ intros i E; injection E as <-; reflexivity
          | repeat constructor ] ].
    apply reachable_step;
      [ | split;
          [ intros i E; injection E as <-; reflexivity
          | repeat constructor ] ].
    apply reachable_empty.
  - now left.
  - exists rows. split; [ exact L | exact P ].
Defined.

(** X7: a PATCH sent twice leaves the table and the answer of the first:
    what the first one wrote is what the second finds and writes again. *)
Theorem update_queue_entry_idempotent `{PyBuiltins} entry_id data st st' r :
  update_queue_entry entry_id data st = inr (st', r) ->
  update_queue_entry entry_id data st' = inr (st', r).
Proof.
  intros Up.
  destruct (query_get entry_id st) as [e | ] eqn:G.
  - destruct (update_queue_entry_inv _ _ _ _ _ _ G Up) as (w & W & -> & ->).
    assert (id (patched data w e) = entry_id) as Ep
      by (rewrite patched_id; now apply query_get_Some in G).
    rewrite (update_queue_entry_found _ data _ (patched data w e) w); auto.
    + now rewrite patched_idem, update_row_const_twice.
    + eapply update_row_const_get; eauto.
  - rewrite (update_queue_entry_absent _ data _ G) in Up.
    injection Up as <- <-.
    now apply update_queue_entry_absent.
Qed.

Lemma update_queue_entry_idempotent_witness :
  update_queue_entry "q2" [("estimatedWaitMinutes"%string, JInt 15)]
    (step (Patch "q2" [("estimatedWaitMinutes"%string, JInt 15)]) sample_store)
  = update_queue_entry "q2" [("estimatedWaitMinutes"%string, JInt 15)]
      sample_store.
Proof.
  assert (update_queue_entry "q2" [("estimatedWaitMinutes"%string, JInt 15)]
            sample_store
          = inr (step (Patch "q2" [("estimatedWaitMinutes"%string, JInt 15)])
                   sample_store,
                 json_response
                   (serialize_entry
                      (set_estimated_wait_minutes (binary64_of_int 15)
                         (joined_entry (sample_payload "q2" 2) (sample_time 2)
                            2 2)))
                   200)) as J by reflexivity.
  rewrite (update_queue_entry_idempotent _ _ _ _ _ J). symmetry. exact J.
Defined.

(** X8: a DELETE repeated for the same id is answered 404 not_found and
    changes nothing more. *)
Theorem cancel_queue_twice `{PyBuiltins} entry_id st st' r :
  cancel_queue entry_id st = inr (st', r) ->
  cancel_queue entry_id st'
  = inr (st', json_response (JObj [("error"%string, JStr "not_found")]) 404).
Proof.
  intros Cq. apply cancel_queue_absent.
  destruct (query_get entry_id st) as [e | ] eqn:G.
  - rewrite (cancel_queue_found _ _ _ G) in Cq. injection Cq as <- _.
    apply query_get_None. unfold _resequence.
    rewrite resequence_rows_ids, delete_ids.
    intros I. apply filter_In in I as [_ N].
    apply query_get_Some in G as [_ E]. rewrite E in N.
    now rewrite String.eqb_refl in N.
  - rewrite (cancel_queue_absent _ _ G) in Cq. now injection Cq as <- _.
Qed.

Lemma cancel_queue_twice_witness :
  cancel_queue "q2" (step (Cancel "q2") sample_store)
  = inr (step (Cancel "q2") sample_store,
         json_response (JObj [("error"%string, JStr "not_found")]) 404).
Proof.
  assert (cancel_queue "q2" sample_store
          = inr (step (Cancel "q2") sample_store, json_response ok_body 200))
    as J by reflexivity.
  exact (cancel_queue_twice _ _ _ _ J).
Defined.

(** X9: in a table reached by admissible requests, the position of a row
    lies between 1 and the size of its group, and two different rows of one
    group never have the same position. *)
Theorem reachable_positions_distinct `{PyBuiltins} st :
  reachable st ->
  forall a, In a st ->
    1 <= position a <= Z.of_nat (List.length (filter (group_of a) st)) /\
    forall b, In b st -> group_of a b = true -> position a = position b ->
              a = b.
Proof.
  intros R a Ia. apply reachable_table_inv in R. destruct R as (U & T & P).
  specialize (P (queue_date a) (guests a) (hall a) (segment a)).
  fold (group_of a) in P.
  assert (In a (filter (group_of a) st)) as Fa
    by (apply filter_In; split; [ assumption | apply group_of_self ]).
  split.
  - assert (In (position a) (zseq 1 (List.length (filter (group_of a) st))))
      as Iz by (rewrite <- P; now apply in_map).
    apply zseq_In in Iz. lia.
  - intros b Ib Gb E.
    apply (NoDup_map_In_inj position (filter (group_of a) st)); auto.
    + rewrite P. apply zseq_NoDup.
    + apply filter_In. auto.
Qed.

Lemma reachable_positions_distinct_witness :
  1 <= position (joined_entry (sample_payload "q1" 2) (sample_time 1) 2 1)
    <= Z.of_nat
         (List.length
            (filter
               (group_of
                  (joined_entry (sample_payload "q1" 2) (sample_time 1) 2 1))
               (step (Join (sample_payload "q2" 2) (sample_time 2))
                  (step (Join (sample_payload "q1" 2) (sample_time 1)) [])))).
Proof.
  apply (reachable_positions_distinct
           (step (Join (sample_payload "q2" 2) (sample_time 2))
              (step (Join (sample_payload "q1" 2) (sample_time 1)) []))).
  - apply reachable_step;
      [ | split;
          [ intros i E; injection E as <-; reflexivity
          | repeat constructor ] ].
    apply reachable_step;
      [ | split;
          [ intros i E; injection E as <-; reflexivity
          | repeat constructor ] ].
    apply reachable_empty.
  - left. reflexivity.
Defined.

(** X14: on a table with distinct ids, a PATCH that is answered changes no
    sort key of a listing: GET /queue afterwards shows the rows it showed
    before, the patched one in its new version, and the sequence of
    (queueDate, hall, segment, position) down the listing is the same. *)
Theorem update_queue_entry_keeps_listing `{PyBuiltins}
  entry_id data st st' r e date :
  unique_ids st ->
  query_get entry_id st = Some e ->
  update_queue_entry entry_id data st = inr (st', r) ->
  exists e' rows rows',
    r = json_response (serialize_entry e') 200 /\
    list_queue date st
    = json_response (JObj [("entries"%string, JArr (map serialize_entry rows))])
        200 /\
    list_queue date st'
    = json_response
        (JObj [("entries"%string, JArr (map serialize_entry rows'))]) 200 /\
    Permutation rows'
      (map (fun x => if String.eqb (id x) entry_id then e' else x) rows) /\
    map sort_key rows' = map sort_key rows.
Proof.
  intros U G Up.
  destruct (update_queue_entry_inv _ _ _ _ _ _ G Up) as (w & _ & -> & ->).
  destruct (list_queue_rows date st) as (rows & L & Er).
  destruct (list_queue_rows date
              (update_row entry_id (fun _ => patched data w e) st))
    as (rows' & L' & Er').
  exists (patched data w e), rows, rows'.
  split; [ reflexivity | ]. split; [ exact L | ]. split; [ exact L' | ].
  set (f := fun x => if String.eqb (id x) entry_id then patched data w x else x).
  assert (forall x, sort_key (f x) = sort_key x) as Fk.
  { intros x. unfold f, sort_key.
    destruct (patched_sort_keys data w x) as (Ad & Ah & As & Ap).
    destruct (String.eqb (id x) entry_id); congruence. }
  assert (forall x, queue_date (f x) = queue_date x) as Fd.
  { intros x. specialize (Fk x). unfold sort_key in Fk. congruence. }
  assert (forall a b, list_order (f a) (f b) = list_order a b) as Fo.
  { intros a b. pose proof (Fk a) as Ka. pose proof (Fk b) as Kb.
    unfold sort_key in Ka, Kb. injection Ka as Ad Ah As Ap.
    injection Kb as Bd Bh Bs Bp.
    unfold list_order, then_by, desc, cmp_on.
    now rewrite Ad, Ah, As, Ap, Bd, Bh, Bs, Bp. }
  assert (rows' = map f rows) as ->.
  { rewrite Er', Er, (update_row_unique entry_id (patched data w) e st U G).
    change (update_row entry_id (patched data w) st) with (map f st).
    rewrite <- (order_by_map list_order f _ Fo). f_equal.
    destruct date as [d0 | ]; auto.
    destruct (String.eqb d0 EmptyString); auto.
    apply filter_map_comm. intros x. now rewrite Fd. }
  split.
  - assert (map f rows
            = map (fun x => if String.eqb (id x) entry_id
                            then patched data w e else x) rows) as ->; auto.
    apply map_ext_in. intros x Ix. unfold f.
    destruct (String.eqb_spec (id x) entry_id) as [E | ]; auto.
    assert (In x st) as Ist.
    { rewrite Er in Ix. apply order_by_In in Ix.
      destruct date as [d0 | ]; auto.
      destruct (String.eqb d0 EmptyString); auto.
      now apply filter_In in Ix as [Ix _]. }
    destruct (query_get_Some _ _ _ G) as [Ie Ee].
    assert (x = e) as -> by (eapply unique_ids_inj; eauto; congruence).
    reflexivity.
  - rewrite map_map. apply map_ext. exact Fk.
Qed.

Lemma update_queue_entry_keeps_listing_witness :
  exists e' rows rows',
    list_queue None sample_store
    = json_response (JObj [("entries"%string, JArr (map serialize_entry rows))])
        200 /\
    list_queue None
      (step (Patch "q2" [("notifiedAt5Min"%string, JBool true)]) sample_store)
    = json_response
        (JObj [("entries"%string, JArr (map serialize_entry rows'))]) 200 /\
    Permutation rows'
      (map (fun x => if String.eqb (id x) "q2" then e' else x) rows) /\
    map sort_key rows' = map sort_key rows.
Proof.
  assert (update_queue_entry "q2" [("notifiedAt5Min"%string, JBool true)]
            sample_store
          = inr (step (Patch "q2" [("notifiedAt5Min"%string, JBool true)])
                   sample_store,
                 json_response
                   (serialize_entry
                      (set_notified_at_5_min true
                         (joined_entry (sample_payload "q2" 2) (sample_time 2)
                            2 2)))
                   200)) as J by reflexivity.
  assert (query_get "q2" sample_store
          = Some (joined_entry (sample_payload "q2" 2) (sample_time 2) 2 2))
    as G by reflexivity.
  destruct (update_queue_entry_keeps_listing _ _ _ _ _ _ None
              sample_store_unique G J)
    as (e' & rows & rows' & _ & L & L' & P & K).
  exists e', rows, rows'. auto.
Defined.

(** X15: the entry a join answers 201 with is among the entries of the next
    GET /queue, as it was returned. *)
Theorem join_queue_then_listed `{PyBuiltins} data now st st' r :
  join_queue data now st = inr (st', r) ->
  status r = 201 ->
  exists entries,
    list_queue None st'
    = json_response (JObj [("entries"%string, JArr entries)]) 200 /\
    In (body r) entries.
Proof.
  intros J S201.
  destruct (join_queue_201 _ _ _ _ _ J S201)
    as (d & g & h & s & _ & _ & -> & ->).
  destruct (list_queue_rows None
              (merge (joined_entry data now g (_next_position d g h s st)) st))
    as (rows & L & Er).
  exists (map serialize_entry rows). split; [ exact L | ].
  simpl body. apply in_map. rewrite Er. apply order_by_In.
  apply (query_get_Some
           (id (joined_entry data now g (_next_position d g h s st)))).
  apply merge_query_get_same.
Qed.

Lemma join_queue_then_listed_witness :
  exists entries,
    list_queue None
      (step (Join (sample_payload "q4" 2) (sample_time 4)) sample_store)
    = json_response (JObj [("entries"%string, JArr entries)]) 200 /\
    In (serialize_entry
          (joined_entry (sample_payload "q4" 2) (sample_time 4) 2 4))
      entries.
Proof.
  assert (join_queue (sample_payload "q4" 2) (sample_time 4) sample_store
          = inr (step (Join (sample_payload "q4" 2) (sample_time 4))
                   sample_store,
                 json_response
                   (serialize_entry
                      (joined_entry (sample_payload "q4" 2) (sample_time 4)
                         2 4))
                   201)) as J by reflexivity.
  exact (join_queue_then_listed _ _ _ _ _ J eq_refl).
Defined.

(** X16: after a DELETE that answered, no GET /queue, with or without a
    date, shows a row with the cancelled id. *)
Theorem cancel_queue_then_not_listed `{PyBuiltins} entry_id st st' r date :
  cancel_queue entry_id st = inr (st', r) ->
  exists rows,
    list_queue date st'
    = json_response (JObj [("entries"%string, JArr (map serialize_entry rows))])
        200 /\
    Forall (fun x => id x <> entry_id) rows.
Proof.
  intros Cq. apply cancel_queue_gone in Cq.
  destruct (list_queue_rows date st') as (rows & L & Er).
  exists rows. split; [ exact L | ].
  apply Forall_forall. intros x Ix E. apply Cq.
  rewrite <- E. apply in_map.
  rewrite Er in Ix. apply order_by_In in Ix.
  destruct date as [d0 | ]; auto.
  destruct (String.eqb d0 EmptyString); auto.
  now apply filter_In in Ix as [Ix _].
Qed.

Lemma cancel_queue_then_not_listed_witness :
  exists rows,
    list_queue None (step (Cancel "q2") sample_store)
    = json_response (JObj [("entries"%string, JArr (map serialize_entry rows))])
        200 /\
    Forall (fun x => id x <> "q2"%string) rows.
Proof.
  assert (cancel_queue "q2" sample_store
          = inr (step (Cancel "q2") sample_store, json_response ok_body 200))
    as J by reflexivity.
  exact (cancel_queue_then_not_listed _ _ _ _ None J).
Defined.

(* ===================================================================== *)
(** * Further facts about the document-store accessors *)
(* ===================================================================== *)

Module MongoMore.
Import Mongo.

Section Client.
Variables (world client database : Type).
Variables (MONGO_URI MONGO_DB_NAME : string).
Variable MongoClient : string -> world -> (string + client) * world.
Variable client_get_database :
  client -> option string -> world -> (string + database) * world.
Variable driver_create_index :
  collection database -> string -> bool -> world -> (string + unit) * world.

Local Abbreviation state := (Mongo.state world client).
Local Abbreviation _get_client :=
  (Mongo._get_client world client MONGO_URI MongoClient).
Local Abbreviation get_db :=
  (Mongo.get_db world client database MONGO_URI MONGO_DB_NAME MongoClient
     client_get_database).
Local Abbreviation create_index :=
  (Mongo.create_index world client database driver_create_index).
Local Abbreviation create_indexes :=
  (Mongo.create_indexes world client database driver_create_index).
Local Abbreviation accessor :=
  (Mongo.accessor world client database MONGO_URI MONGO_DB_NAME MongoClient
     client_get_database driver_create_index).
Local Abbreviation accessors :=
  (Mongo.accessors world client database MONGO_URI MONGO_DB_NAME MongoClient
     client_get_database driver_create_index).

Lemma lift_calls {A} (op : world -> (string + A) * world) (s : state) :
  calls _ _ (snd (lift world client op s)) = calls _ _ s /\
  _client _ _ (snd (lift world client op s)) = _client _ _ s.
Proof. unfold lift. destruct (op (the_world _ _ s)). simpl. auto. Qed.

Lemma _get_client_calls (s : state) :
  calls _ _ (snd (_get_client s)) = calls _ _ s.
Proof.
  unfold Mongo._get_client. destruct (_client _ _ s); auto.
  pose proof (lift_calls (MongoClient MONGO_URI) s) as [Lc _].
  destruct (lift world client (MongoClient MONGO_URI) s) as [[e | c] s1];
    simpl in *; auto.
Qed.

Lemma get_db_calls (s : state) : calls _ _ (snd (get_db s)) = calls _ _ s.
Proof.
  unfold Mongo.get_db, bind.
  pose proof (_get_client_calls s) as Gc.
  destruct (_get_client s) as [[e | c] s1]; simpl in *; auto.
  destruct (String.eqb MONGO_DB_NAME EmptyString);
    match goal with
    | |- context [ lift world client ?op s1 ] =>
        destruct (lift_calls op s1) as [Lc _]; congruence
    end.
Qed.

(** X10: the client is built once and kept: after [_get_client] returned a
    client, the module global holds it and every later call returns the
    same client without touching anything; a failed construction is not
    remembered. *)
Theorem _get_client_memoizes (s s1 : state) :
  (forall c, _get_client s = (inr c, s1) ->
             _client _ _ s1 = Some c /\ _get_client s1 = (inr c, s1)) /\
  (forall e, _get_client s = (inl e, s1) ->
             _client _ _ s = None /\ _client _ _ s1 = None).
Proof.
  unfold Mongo._get_client.
  destruct (_client _ _ s) as [c0 | ] eqn:C0.
  - split; [ | discriminate ].
    intros c E. injection E as <- <-. rewrite C0. auto.
  - pose proof (lift_calls (MongoClient MONGO_URI) s) as [_ Lc].
    destruct (lift world client (MongoClient MONGO_URI) s) as [[e0 | c1] s2];
      simpl in Lc; split.
    + discriminate.
    + intros e E. injection E as _ <-. split; congruence.
    + intros c E. injection E as <- <-. simpl. auto.
    + discriminate.
Qed.

(** All indexes of a non-empty list are asked for when none raises. *)
Lemma create_indexes_all c specs : forall s : state,
  (forall c' k u w, fst (driver_create_index c' k u w) = inr tt) ->
  specs <> [] ->
  fst (create_indexes c specs s) = inr tt /\
  calls _ _ (snd (create_indexes c specs s))
  = calls _ _ s ++ map (index_call (coll_name _ c)) specs.
Proof.
  intros s Ok. revert s.
  assert (forall k u (s : state), fst (create_index c k u s) = inr tt) as Ci.
  { intros k u s. unfold Mongo.create_index, lift. simpl.
    specialize (Ok c k u (the_world _ _ s)).
    destruct (driver_create_index c k u (the_world _ _ s)). exact Ok. }
  induction specs as [ | [k u] rest IH ]; intros s NE; [ congruence | ].
  destruct (MongoFacts.create_index_run world client database
              driver_create_index c k u s) as [Cs _].
  specialize (Ci k u s).
  destruct rest as [ | p rest ].
  - simpl. split; auto.
  - change (create_indexes c ((k, u) :: p :: rest))
      with (bind world client (create_index c k u)
              (fun _ => create_indexes c (p :: rest))).
    unfold bind.
    destruct (create_index c k u s) as [[e | []] s1]; simpl in Cs, Ci;
      [ discriminate | ].
    destruct (IH s1) as [R Cs1]; [ discriminate | ].
    split; auto.
    rewrite Cs1, Cs, <- app_assoc. reflexivity.
Qed.

(** After a call that raises nothing more is asked for. *)
Lemma create_indexes_refused c specs (s : state) :
  (forall c' k u w, exists e, fst (driver_create_index c' k u w) = inl e) ->
  calls _ _ (snd (create_indexes c specs s))
  = calls _ _ s ++ map (index_call (coll_name _ c)) (firstn 1 specs).
Proof.
  intros No.
  destruct specs as [ | [k u] rest ]; [ simpl; now rewrite app_nil_r | ].
  destruct (MongoFacts.create_index_run world client database
              driver_create_index c k u s) as [Cs _].
  assert (exists e, fst (create_index c k u s) = inl e) as [e Ce].
  { unfold Mongo.create_index, lift. simpl.
    destruct (No c k u (the_world _ _ s)) as [e E].
    destruct (driver_create_index c k u (the_world _ _ s)). eauto. }
  destruct rest as [ | p rest ]; [ exact Cs | ].
  change (create_indexes c ((k, u) :: p :: rest))
    with (bind world client (create_index c k u)
            (fun _ => create_indexes c (p :: rest))).
  unfold bind.
  destruct (create_index c k u s) as [[e' | []] s1]; simpl in Cs, Ce;
    [ exact Cs | discriminate ].
Qed.

Lemma accessor_calls n specs (s : state) :
  match get_db s with
  | (inl e, s1) => accessor n specs s = (inl e, s1)
  | (inr db, s1) =>
      fst (accessor n specs s) = inr (get_collection database db n) /\
      calls _ _ (snd (accessor n specs s))
      = calls _ _ (snd (create_indexes (get_collection database db n) specs s1))
  end.
Proof.
  destruct (get_db s) as [[e | db] s1] eqn:G;
    unfold Mongo.accessor, bind, try_pass, ret; rewrite G; [ reflexivity | ].
  destruct (create_indexes (get_collection database db n) specs s1)
    as [[e | []] s2]; simpl; auto.
Qed.

(** X11: when the driver builds every index without raising, each of the
    six accessors asks for all its indexes, in the order of the source, on
    every access, and returns the collection. *)
Theorem accessors_request_all_indexes :
  (forall c k u w, fst (driver_create_index c k u w) = inr tt) ->
  Forall (fun a : Mongo.mongo world client (collection database)
                  * string * list (string * bool) =>
            let '(acc, n, specs) := a in
            forall (s : state) db s1,
              get_db s = (inr db, s1) ->
              fst (acc s) = inr (get_collection database db n) /\
              calls _ _ (snd (acc s))
              = calls _ _ s ++ map (index_call n) specs)
    accessors.
Proof.
  intros Ok. unfold Mongo.accessors.
  repeat apply Forall_cons; try apply Forall_nil; cbv beta iota;
    intros s db s1 G;
    match goal with
    | |- context [ map (index_call ?n) ?l ] =>
        pose proof (accessor_calls n l s) as A;
        pose proof (get_db_calls s) as Gc;
        rewrite G in A, Gc; simpl in Gc;
        destruct A as [A1 A2];
        destruct (create_indexes_all (get_collection database db n) l s1 Ok)
          as [_ Cs]; [ discriminate | ];
        split; [ exact A1 | ];
        etransitivity; [ exact A2 | ];
        rewrite Cs, Gc; reflexivity
    end.
Qed.

(** X12: when the driver raises on every index creation, each accessor
    still returns the collection and has asked for its first index only:
    an exception ends the index creations of that access. *)
Theorem accessors_stop_at_first_refusal :
  (forall c k u w, exists e, fst (driver_create_index c k u w) = inl e) ->
  Forall (fun a : Mongo.mongo world client (collection database)
                  * string * list (string * bool) =>
            let '(acc, n, specs) := a in
            forall (s : state) db s1,
              get_db s = (inr db, s1) ->
              fst (acc s) = inr (get_collection database db n) /\
              calls _ _ (snd (acc s))
              = calls _ _ s ++ map (index_call n) (firstn 1 specs))
    accessors.
Proof.
  intros No. unfold Mongo.accessors.
  repeat apply Forall_cons; try apply Forall_nil; cbv beta iota;
    intros s db s1 G;
    match goal with
    | |- context [ map (index_call ?n) (firstn 1 ?l) ] =>
        pose proof (accessor_calls n l s) as A;
        pose proof (get_db_calls s) as Gc;
        rewrite G in A, Gc; simpl in Gc;
        destruct A as [A1 A2];
        split; [ exact A1 | ];
        etransitivity; [ exact A2 | ];
        rewrite (create_indexes_refused (get_collection database db n) l s1 No),
          Gc; reflexivity
    end.
Qed.

(** X13: when no database can be obtained, an accessor raises what
    [get_db] raised and has asked for no index. *)
Theorem accessors_need_database :
  Forall (fun a : Mongo.mongo world client (collection database)
                  * string * list (string * bool) =>
            let '(acc, n, specs) := a in
            forall (s : state) e s1,
              get_db s = (inl e, s1) ->
              acc s = (inl e, s1) /\ calls _ _ s1 = calls _ _ s)
    accessors.
Proof.
  unfold Mongo.accessors.
  repeat apply Forall_cons; try apply Forall_nil; cbv beta iota;
    intros s e s1 G;
    pose proof (get_db_calls s) as Gc; rewrite G in Gc; simpl in Gc;
    (split; [ | exact Gc ]);
    unfold get_users_collection, get_menu_collection,
      get_feedback_collection, get_orders_collection,
      get_reservations_collection, get_waiting_queue_collection;
    unfold bind at 1; rewrite G; reflexivity.
Qed.
End Client.

Lemma accessors_request_all_indexes_witness :
  calls _ _
    (snd (get_menu_collection nat string string MongoSample.uri EmptyString
            MongoSample.connect MongoSample.database_of
            MongoSample.build_index MongoSample.fresh_state))
  = [ CreateIndex "menu_items" "id" true;
      CreateIndex "menu_items" "category" false;
      CreateIndex "menu_items" "isVeg" false ].
Proof.
  pose proof (accessors_request_all_indexes nat string string
                MongoSample.uri EmptyString
                MongoSample.connect MongoSample.database_of
                MongoSample.build_index
                (fun c k u w => eq_refl)) as F.
  apply Forall_inv_tail, Forall_inv in F.
  destruct (F MongoSample.fresh_state "restaurant_db"%string
              (mkState nat string (Some MongoSample.uri) [] 0%nat)
              eq_refl) as [_ C].
  exact C.
Defined.

Lemma accessors_stop_at_first_refusal_witness :
  fst (get_menu_collection nat string string MongoSample.uri EmptyString
         MongoSample.connect MongoSample.database_of
         MongoSample.refuse_index MongoSample.fresh_state)
  = inr (mkCollection string "restaurant_db"%string "menu_items"%string) /\
  calls _ _
    (snd (get_menu_collection nat string string MongoSample.uri EmptyString
            MongoSample.connect MongoSample.database_of
            MongoSample.refuse_index MongoSample.fresh_state))
  = [ CreateIndex "menu_items" "id" true ].
Proof.
  pose proof (accessors_stop_at_first_refusal nat string string
                MongoSample.uri EmptyString
                MongoSample.connect MongoSample.database_of
                MongoSample.refuse_index
                (fun c k u w =>
                   ex_intro _ "OperationFailure"%string eq_refl)) as F.
  apply Forall_inv_tail, Forall_inv in F.
  exact (F MongoSample.fresh_state "restaurant_db"%string
           (mkState nat string (Some MongoSample.uri) [] 0%nat)
           eq_refl).
Defined.

End MongoMore.
